(** * Helix: the streaming response interpreter of [src/index.tsx]

    A shallow embedding of [StreamProcessor] (lines 495-633), of the turn
    handler [handleFormSubmit] (lines 430-493) and of the stop-button handler
    (lines 301-304), with the theorems that settle the properties stated
    about them.

    Conventions of the embedding.
    - A JavaScript string is a sequence of UTF-16 code units; a Rocq [string]
      stands for one whose code units are all below 256, an [ascii] being the
      code unit.
    - An optional parameter ([text?: string]) is an [option]; [None] is
      [undefined].
    - A DOM element the processor holds a reference to is the content stored
      in the processor's field; the children of [modelMessage] are a list of
      node kinds in document order.
    - The external renderer [marked.parse] is a parameter of the model. *)

From Stdlib Require Import String Ascii List Bool Arith Lia.
Import ListNotations.
Local Open Scope list_scope.
Local Open Scope string_scope.

(** ** JavaScript string primitives used by the source *)

Module Js.

Definition code (c : ascii) : nat := nat_of_ascii c.

Definition between (lo hi : nat) (c : ascii) : bool :=
  ((lo <=? code c)%nat && (code c <=? hi)%nat)%bool.

Definition is_upper (c : ascii) : bool := between 65 90 c.
Definition is_lower (c : ascii) : bool := between 97 122 c.
Definition is_digit (c : ascii) : bool := between 48 57 c.

(** [\w]: the class [A-Za-z0-9_].  Under the [i] flag without the [u] flag
    the class gains no member. *)
Definition is_word_char (c : ascii) : bool :=
  is_upper c || is_lower c || is_digit c || (code c =? 95)%nat.

(** [\s], which is also what [String.prototype.trim] strips: WhiteSpace and
    LineTerminator code units (tab, LF, VT, FF, CR, space, no-break space). *)
Definition is_white_space (c : ascii) : bool :=
  between 9 13 c || (code c =? 32)%nat || (code c =? 160)%nat.

(** The characters [.] refuses: LF and CR (the others are above 255). *)
Definition is_line_terminator (c : ascii) : bool :=
  (code c =? 10)%nat || (code c =? 13)%nat.

(** ASCII case folding, which is how the [i] flag compares the letters of a
    pattern with the input. *)
Definition fold_case (c : ascii) : ascii :=
  if is_upper c then ascii_of_nat (code c + 32) else c.

Definition char_eq_ci (p c : ascii) : bool :=
  Ascii.eqb (fold_case p) (fold_case c).

(** [String.prototype.toLowerCase] on code units below 256: the ASCII
    capitals and the Latin-1 capitals other than the multiplication sign. *)
Definition char_toLowerCase (c : ascii) : ascii :=
  if is_upper c || (between 192 222 c && negb (code c =? 215)%nat)
  then ascii_of_nat (code c + 32) else c.

Fixpoint toLowerCase (s : string) : string :=
  match s with
  | EmptyString => EmptyString
  | String c s' => String (char_toLowerCase c) (toLowerCase s')
  end.

Fixpoint drop (n : nat) (s : string) : string :=
  match n, s with
  | O, _ => s
  | S _, EmptyString => EmptyString
  | S n', String _ s' => drop n' s'
  end.

Fixpoint take (n : nat) (s : string) : string :=
  match n, s with
  | O, _ => EmptyString
  | S _, EmptyString => EmptyString
  | S n', String c s' => String c (take n' s')
  end.

(** [s.startsWith(pat)], returning what follows the prefix. *)
Fixpoint strip_prefix (pat s : string) : option string :=
  match pat, s with
  | EmptyString, _ => Some s
  | String p pat', String c s' =>
      if Ascii.eqb p c then strip_prefix pat' s' else None
  | String _ _, EmptyString => None
  end.

(** [String.prototype.replace(searchString, replaceValue)] with a string
    pattern: the first occurrence only.  [replaceValue] is taken literally
    (the source passes the empty string). *)
Fixpoint replace (pat rep s : string) : string :=
  match strip_prefix pat s with
  | Some rest => rep ++ rest
  | None =>
      match s with
      | EmptyString => EmptyString
      | String c s' => String c (replace pat rep s')
      end
  end.

Fixpoint trimStart (s : string) : string :=
  match s with
  | EmptyString => EmptyString
  | String c s' => if is_white_space c then trimStart s' else s
  end.

Fixpoint trimEnd (s : string) : string :=
  match s with
  | EmptyString => EmptyString
  | String c s' =>
      match trimEnd s' with
      | EmptyString => if is_white_space c then EmptyString else String c EmptyString
      | t => String c t
      end
  end.

Definition trim (s : string) : string := trimEnd (trimStart s).

(** [x || d] on an optional string: [undefined] and the empty string are
    falsy. *)
Definition truthy (o : option string) : bool :=
  match o with
  | None => false
  | Some EmptyString => false
  | Some _ => true
  end.

Definition or_else (o : option string) (d : string) : string :=
  match o with
  | Some (String c s) => String c s
  | _ => d
  end.

Fixpoint join (l : list string) : string :=
  match l with
  | [] => EmptyString
  | s :: l' => s ++ join l'
  end.

End Js.

(** ** The two regular expressions of the source *)

Module Regex.
Import Js.

(** A literal matched under the [i] flag; the result is the rest of the
    input. *)
Fixpoint literal_ci (pat s : string) : option string :=
  match pat, s with
  | EmptyString, _ => Some s
  | String p pat', String c s' =>
      if char_eq_ci p c then literal_ci pat' s' else None
  | String _ _, EmptyString => None
  end.

(** [\w+] is greedy and nothing follows it in the pattern: it takes the
    longest run of word characters. *)
Fixpoint word_run (s : string) : string :=
  match s with
  | EmptyString => EmptyString
  | String c s' => if is_word_char c then String c (word_run s') else EmptyString
  end.

(** The result array of [String.prototype.match]: [m[0]], [m[1]] and
    [m.index]. *)
Record MatchResult : Type := mkMatch
  { m_index : nat; m_all : string; m_group1 : string }.

(** [/Language: (\w+)/i] anchored at the start of [s]. *)
Definition language_here (s : string) : option (string * string) :=
  match literal_ci "Language: " s with
  | Some rest =>
      match word_run rest with
      | EmptyString => None
      | w => Some (take (10 + String.length w) s, w)
      end
  | None => None
  end.

(** [s.match(/Language: (\w+)/i)]: the leftmost position where the pattern
    matches. *)
Fixpoint match_language (s : string) : option MatchResult :=
  match language_here s with
  | Some (m, g) => Some (mkMatch 0 m g)
  | None =>
      match s with
      | EmptyString => None
      | String _ s' =>
          match match_language s' with
          | Some r => Some (mkMatch (S (m_index r)) (m_all r) (m_group1 r))
          | None => None
          end
      end
  end.

(** [.*?\]\s] once the opening bracket is consumed: the number of code units
    up to and including the white space, for the nearest closing bracket that
    is followed by white space and is reached without crossing a line
    terminator. *)
Fixpoint bracket_tail (s : string) : option nat :=
  match s with
  | EmptyString => None
  | String c s' =>
      let close :=
        if Ascii.eqb c "]" then
          match s' with
          | String w _ => is_white_space w
          | EmptyString => false
          end
        else false in
      if close then Some 2
      else if is_line_terminator c then None
      else option_map S (bracket_tail s')
  end.

(** [/\[.*?\]\s/] anchored at the start of [s]: the length of the match. *)
Definition bracket_here (s : string) : option nat :=
  match s with
  | String c s' => if Ascii.eqb c "[" then option_map S (bracket_tail s') else None
  | EmptyString => None
  end.

(** [s.replace(/\[.*?\]\s/g, '')].  [skip] is the number of code units of
    the current match still to be dropped. *)
Fixpoint remove_brackets_from (skip : nat) (s : string) : string :=
  match s with
  | EmptyString => EmptyString
  | String c s' =>
      match skip with
      | S k => remove_brackets_from k s'
      | O =>
          match bracket_here s with
          | Some n => remove_brackets_from (pred n) s'
          | None => String c (remove_brackets_from 0 s')
          end
      end
  end.

Definition remove_brackets (s : string) : string := remove_brackets_from 0 s.

End Regex.

(** ** Data model *)

(** [call.args?.code]: both the argument object and its [code] may be
    missing. *)
Record Args : Type := mkArgs { code : option string }.
Record FunctionCall : Type := mkFunctionCall { args : option Args }.

(** What [process] reads of a streamed chunk (lines 519-522). *)
Record Chunk : Type := mkChunk
  { text : option string;
    functionCalls : option (list FunctionCall);
    executableCode : option string;
    codeExecutionResult : option string }.

(** A thrown value, of which the handler reads [error.message]. *)
Record Error : Type := mkError { message : option string }.

(** The children [modelMessage] can have.  An error card carries the
    string the handler interpolates into its body. *)
Inductive Node : Type :=
  | ThinkingIndicator
  | TextCardEl
  | ToolCallCardEl
  | CodeCardEl
  | ResultCardEl
  | NoOutputCard
  | ErrorCard (errorBody : string).

(** The [code] elements queued for [hljs.highlightElement]. *)
Inductive CodeElement : Type := ToolCallCode | CodeCardCode.

(** The code card: the language written in its header and in the class of
    its [code] element when the card is built, and the element's
    [textContent]. *)
Record CodeCard : Type := mkCodeCard
  { cc_language : string; cc_textContent : string }.

(** [class StreamProcessor], lines 495-513.  [textCard] holds the
    [innerHTML] of the card's body, [toolCallCard] and [resultCard] the
    [textContent] of their [code] and [pre] elements. *)
Record StreamProcessor : Type := mkStreamProcessor
  { modelMessage : list Node;
    accumulatedText : string;
    detectedLanguage : string;
    elementsToHighlight : list CodeElement;
    textCard : option string;
    toolCallCard : option string;
    codeCard : option CodeCard;
    resultCard : option string }.

(** [new StreamProcessor(modelMessage, chatContainer, state)]. *)
Definition newStreamProcessor (children : list Node) : StreamProcessor :=
  {| modelMessage := children;
     accumulatedText := "";
     detectedLanguage := "python";
     elementsToHighlight := [];
     textCard := None;
     toolCallCard := None;
     codeCard := None;
     resultCard := None |}.

Definition set_modelMessage (v : list Node) (p : StreamProcessor) :=
  {| modelMessage := v; accumulatedText := accumulatedText p;
     detectedLanguage := detectedLanguage p;
     elementsToHighlight := elementsToHighlight p; textCard := textCard p;
     toolCallCard := toolCallCard p; codeCard := codeCard p;
     resultCard := resultCard p |}.

Definition set_accumulatedText (v : string) (p : StreamProcessor) :=
  {| modelMessage := modelMessage p; accumulatedText := v;
     detectedLanguage := detectedLanguage p;
     elementsToHighlight := elementsToHighlight p; textCard := textCard p;
     toolCallCard := toolCallCard p; codeCard := codeCard p;
     resultCard := resultCard p |}.

Definition set_detectedLanguage (v : string) (p : StreamProcessor) :=
  {| modelMessage := modelMessage p; accumulatedText := accumulatedText p;
     detectedLanguage := v;
     elementsToHighlight := elementsToHighlight p; textCard := textCard p;
     toolCallCard := toolCallCard p; codeCard := codeCard p;
     resultCard := resultCard p |}.

Definition set_elementsToHighlight (v : list CodeElement) (p : StreamProcessor) :=
  {| modelMessage := modelMessage p; accumulatedText := accumulatedText p;
     detectedLanguage := detectedLanguage p;
     elementsToHighlight := v; textCard := textCard p;
     toolCallCard := toolCallCard p; codeCard := codeCard p;
     resultCard := resultCard p |}.

Definition set_textCard (v : option string) (p : StreamProcessor) :=
  {| modelMessage := modelMessage p; accumulatedText := accumulatedText p;
     detectedLanguage := detectedLanguage p;
     elementsToHighlight := elementsToHighlight p; textCard := v;
     toolCallCard := toolCallCard p; codeCard := codeCard p;
     resultCard := resultCard p |}.

Definition set_toolCallCard (v : option string) (p : StreamProcessor) :=
  {| modelMessage := modelMessage p; accumulatedText := accumulatedText p;
     detectedLanguage := detectedLanguage p;
     elementsToHighlight := elementsToHighlight p; textCard := textCard p;
     toolCallCard := v; codeCard := codeCard p;
     resultCard := resultCard p |}.

Definition set_codeCard (v : option CodeCard) (p : StreamProcessor) :=
  {| modelMessage := modelMessage p; accumulatedText := accumulatedText p;
     detectedLanguage := detectedLanguage p;
     elementsToHighlight := elementsToHighlight p; textCard := textCard p;
     toolCallCard := toolCallCard p; codeCard := v;
     resultCard := resultCard p |}.

Definition set_resultCard (v : option string) (p : StreamProcessor) :=
  {| modelMessage := modelMessage p; accumulatedText := accumulatedText p;
     detectedLanguage := detectedLanguage p;
     elementsToHighlight := elementsToHighlight p; textCard := textCard p;
     toolCallCard := toolCallCard p; codeCard := codeCard p;
     resultCard := v |}.

(** [this.modelMessage.append(el)] and [this.elementsToHighlight.push(el)]. *)
Definition append_child (n : Node) (p : StreamProcessor) : StreamProcessor :=
  set_modelMessage (modelMessage p ++ [n])%list p.

Definition push_highlight (e : CodeElement) (p : StreamProcessor) : StreamProcessor :=
  set_elementsToHighlight (elementsToHighlight p ++ [e])%list p.

Definition is_tool_call_card (n : Node) : bool :=
  match n with ToolCallCardEl => true | _ => false end.

(** [this.toolCallCard.remove()]. *)
Definition remove_tool_call_card (p : StreamProcessor) : StreamProcessor :=
  set_modelMessage (filter (fun n => negb (is_tool_call_card n)) (modelMessage p)) p.

(** The promise an [async] method hands back to its caller. *)
Inductive Promise : Type :=
  | Resolved
  | Awaiting (html : string)
  | Rejected (e : Error).

(** The part of [AppState] the turn reads and writes, with the [hidden]
    class of the stop button. *)
Record AppState : Type := mkAppState
  { isGenerating : bool; stopButtonHidden : bool }.

(** ** The four channels *)

Section Interpreter.

(** [marked.parse], called synchronously: the markup, or the error it
    throws. *)
Variable marked_parse : string -> string + Error.

(** [updateText], lines 531-552.  The method is [async]: it runs up to its
    [await] when called; the assignment to [textBody.innerHTML] is the
    continuation, returned here as [Awaiting html]; an exception of
    [marked.parse] rejects the promise instead of being thrown to the
    caller. *)
Definition updateText (text : option string) (p : StreamProcessor)
  : StreamProcessor * Promise :=
  match text with
  | None | Some EmptyString => (p, Resolved)
  | Some text =>
      let p1 := set_accumulatedText (accumulatedText p ++ text) p in
      let p2 :=
        match Regex.match_language (accumulatedText p1) with
        | Some langMatch =>
            set_accumulatedText
              (Js.trim (Js.replace (Regex.m_all langMatch) "" (accumulatedText p1)))
              (set_detectedLanguage (Js.toLowerCase (Regex.m_group1 langMatch)) p1)
        | None => p1
        end in
      let p3 :=
        match textCard p2 with
        | None => append_child TextCardEl (set_textCard (Some "") p2)
        | Some _ => p2
        end in
      match marked_parse (accumulatedText p3) with
      | inl html => (p3, Awaiting html)
      | inr e => (p3, Rejected e)
      end
  end.

(** [call.args?.code || ''], line 557. *)
Definition call_code (call : FunctionCall) : string :=
  Js.or_else (match args call with Some a => code a | None => None end) "".

(** [updateToolCall], lines 554-572.  An array is truthy whatever its
    length: only [undefined] returns early. *)
Definition updateToolCall (calls : option (list FunctionCall))
  (p : StreamProcessor) : StreamProcessor :=
  match calls with
  | None => p
  | Some l =>
      let code := Js.join (map call_code l) in
      let p1 :=
        match toolCallCard p with
        | None =>
            push_highlight ToolCallCode
              (append_child ToolCallCardEl (set_toolCallCard (Some "") p))
        | Some _ => p
        end in
      set_toolCallCard (Some code) p1
  end.

(** [updateExecutableCode], lines 574-616. *)
Definition updateExecutableCode (executableCode : option string)
  (p : StreamProcessor) : StreamProcessor :=
  match executableCode with
  | None | Some EmptyString => p
  | Some executableCode =>
      let p1 :=
        match toolCallCard p with
        | Some _ => set_toolCallCard None (remove_tool_call_card p)
        | None => p
        end in
      let p2 :=
        match codeCard p1 with
        | None =>
            push_highlight CodeCardCode
              (append_child CodeCardEl
                 (set_codeCard (Some (mkCodeCard (detectedLanguage p1) "")) p1))
        | Some _ => p1
        end in
      match codeCard p2 with
      | Some card =>
          set_codeCard (Some (mkCodeCard (cc_language card) executableCode)) p2
      | None => p2
      end
  end.

(** [updateResult], lines 618-632: the test is [result === undefined]. *)
Definition updateResult (result : option string) (p : StreamProcessor)
  : StreamProcessor :=
  match result with
  | None => p
  | Some r =>
      let p1 :=
        match resultCard p with
        | None => append_child ResultCardEl (set_resultCard (Some "") p)
        | Some _ => p
        end in
      set_resultCard (Some r) p1
  end.

(** ** The loop of [process] *)

(** What runs between two reads of the stream: the continuation of a
    suspended [updateText]. *)
Inductive Job : Type := SetTextBody (html : string).

(** The turn as the event loop sees it: the shared [AppState], the
    processor, the microtask queue, the rejections nobody handles and the
    elements [hljs.highlightElement] was called on. *)
Record World : Type := mkWorld
  { app : AppState;
    sp : StreamProcessor;
    microtasks : list Job;
    unhandledRejections : list Error;
    highlighted : list CodeElement }.

Definition set_sp (p : StreamProcessor) (w : World) : World :=
  {| app := app w; sp := p; microtasks := microtasks w;
     unhandledRejections := unhandledRejections w; highlighted := highlighted w |}.

Definition set_app (a : AppState) (w : World) : World :=
  {| app := a; sp := sp w; microtasks := microtasks w;
     unhandledRejections := unhandledRejections w; highlighted := highlighted w |}.

(** The caller drops the promise of [this.updateText(chunk.text)] (line
    519, no [await]): its continuation goes to the microtask queue, its
    rejection to nobody. *)
Definition drop_promise (pr : Promise) (w : World) : World :=
  match pr with
  | Resolved => w
  | Awaiting html =>
      {| app := app w; sp := sp w;
         microtasks := (microtasks w ++ [SetTextBody html])%list;
         unhandledRejections := unhandledRejections w;
         highlighted := highlighted w |}
  | Rejected e =>
      {| app := app w; sp := sp w; microtasks := microtasks w;
         unhandledRejections := (unhandledRejections w ++ [e])%list;
         highlighted := highlighted w |}
  end.

(** Lines 519-522: the body of the loop for one chunk. *)
Definition process_chunk (chunk : Chunk) (p : StreamProcessor)
  : StreamProcessor * Promise :=
  let '(p1, pr) := updateText (text chunk) p in
  let p2 := updateToolCall (functionCalls chunk) p1 in
  let p3 := updateExecutableCode (executableCode chunk) p2 in
  let p4 := updateResult (codeExecutionResult chunk) p3 in
  (p4, pr).

Definition loop_body (chunk : Chunk) (w : World) : World :=
  let '(p, pr) := process_chunk chunk (sp w) in
  drop_promise pr (set_sp p w).

Definition run_job (j : Job) (p : StreamProcessor) : StreamProcessor :=
  match j with
  | SetTextBody html => set_textCard (Some html) p
  end.

(** The microtask checkpoint reached when the loop awaits the next chunk. *)
Definition run_microtasks (w : World) : World :=
  {| app := app w;
     sp := fold_left (fun p j => run_job j p) (microtasks w) (sp w);
     microtasks := [];
     unhandledRejections := unhandledRejections w;
     highlighted := highlighted w |}.

(** What reaches the turn while its loop is suspended on the stream: a
    click on the stop button, the submission of a new prompt (the [submit]
    listener, lines 287-299, does not read the flag), a chunk delivered by
    the stream, or the stream failing. *)
Inductive Event : Type :=
  | StopClick
  | Submit
  | Yield (chunk : Chunk)
  | StreamThrows (e : Error).

(** The click listener of the stop button, lines 301-304. *)
Definition stop_click (w : World) : World :=
  set_app {| isGenerating := false; stopButtonHidden := true |} w.

(** What the [handleFormSubmit] of a later turn writes to the shared state
    before it awaits, lines 460-462.  Its own document and stream are not
    this turn's. *)
Definition submit_click (w : World) : World :=
  set_app {| isGenerating := true; stopButtonHidden := false |} w.

Inductive Completion : Type := Normal | Throw (e : Error).

(** [for await (const chunk of responseStream)], lines 516-524.  The end of
    the list is the end of the stream. *)
Fixpoint process_loop (evs : list Event) (w : World) : World * Completion :=
  match evs with
  | [] => (w, Normal)
  | StopClick :: evs' => process_loop evs' (stop_click w)
  | Submit :: evs' => process_loop evs' (submit_click w)
  | StreamThrows e :: _ => (w, Throw e)
  | Yield chunk :: evs' =>
      if negb (isGenerating (app w)) then (w, Normal)
      else process_loop evs' (run_microtasks (loop_body chunk w))
  end.

(** Lines 525-528: the highlighting pass and the placeholder. *)
Definition finish (w : World) : World :=
  let p := sp w in
  {| app := app w;
     sp := match modelMessage p with
           | [] => set_modelMessage [NoOutputCard] p
           | _ :: _ => p
           end;
     microtasks := microtasks w;
     unhandledRejections := unhandledRejections w;
     highlighted := (highlighted w ++ elementsToHighlight p)%list |}.

(** [process], lines 515-529. *)
Definition process (evs : list Event) (w : World) : World * Completion :=
  match process_loop evs w with
  | (w', Normal) => (finish w', Normal)
  | (w', Throw e) => (w', Throw e)
  end.

(** ** The turn handler *)

(** [error.message || 'An unknown error occurred.'] with the bracketed
    tokens removed, line 484. *)
Definition errorBody_of (error : Error) : string :=
  Regex.remove_brackets (Js.or_else (message error) "An unknown error occurred.").

(** The turn when line 462 has run: the flag is set, the stop button
    shown, and [modelMessage] holds [children]. *)
Definition start (children : list Node) : World :=
  {| app := {| isGenerating := true; stopButtonHidden := false |};
     sp := newStreamProcessor children;
     microtasks := []; unhandledRejections := []; highlighted := [] |}.

(** [handleFormSubmit] from line 451 on.  [send] is the outcome of lines
    465-474, the message parts built and [state.chat.sendMessageStream]
    awaited: the error thrown there, or the stream as the events of the
    turn.  The result is the world when the [finally] block has run. *)
Definition handleFormSubmit (send : Error + list Event) : World :=
  let '(w, completion) :=
    match send with
    | inl e => (start [ThinkingIndicator], Throw e)
    | inr evs => process evs (start [])
    end in
  let caught :=
    match completion with
    | Normal => w
    | Throw e => set_sp (set_modelMessage [ErrorCard (errorBody_of e)] (sp w)) w
    end in
  set_app {| isGenerating := false; stopButtonHidden := true |} caught.

(** One turn of the loop as the processor sees it: the body, then the
    continuation of [updateText] at the next read. *)
Definition apply_chunk (p : StreamProcessor) (chunk : Chunk) : StreamProcessor :=
  let '(p', pr) := process_chunk chunk p in
  match pr with
  | Awaiting html => set_textCard (Some html) p'
  | _ => p'
  end.

Definition apply_chunks (cs : list Chunk) (p : StreamProcessor) : StreamProcessor :=
  fold_left apply_chunk cs p.

(** The processor when the loop has read the whole of [cs] with the flag
    set all along. *)
Definition after_chunks (cs : list Chunk) : StreamProcessor :=
  sp (fst (process_loop (map Yield cs) (start []))).

End Interpreter.

(** ** Notions the statements are written with *)

Definition is_some {A : Type} (o : option A) : bool :=
  match o with Some _ => true | None => false end.

(** What a chunk carries, as each channel tests it. *)
Definition carries_text (c : Chunk) : bool := Js.truthy (text c).
Definition carries_tool_list (c : Chunk) : bool := is_some (functionCalls c).
Definition carries_code (c : Chunk) : bool := Js.truthy (executableCode c).

(** The text deltas of a sequence of chunks, a chunk without text counting
    for the empty delta. *)
Definition deltas (cs : list Chunk) : list string :=
  map (fun c => Js.or_else (text c) "") cs.

(** One marker taken out of a text: the first match of the pattern is cut
    out and the text trimmed; a text without marker is left as it is. *)
Definition strip_marker (s : string) : string :=
  match Regex.match_language s with
  | Some m =>
      Js.trim (Js.take (Regex.m_index m) s
               ++ Js.drop (Regex.m_index m + String.length (Regex.m_all m)) s)
  | None => s
  end.

(** The accumulated text after one more delta: an empty delta changes
    nothing; any other is appended and the result stripped of one marker. *)
Definition step_text (acc d : string) : string :=
  match d with
  | EmptyString => acc
  | _ => strip_marker (acc ++ d)
  end.

(** The text the card shows after the deltas [ds]. *)
Definition accumulate_from (acc : string) (ds : list string) : string :=
  fold_left step_text ds acc.

Definition accumulate (ds : list string) : string := accumulate_from "" ds.

(** The language after one more delta: the name of the first marker of the
    text accumulated with it, in lower case, when there is one. *)
Definition step_language (acc lang d : string) : string :=
  match d with
  | EmptyString => lang
  | _ =>
      match Regex.match_language (acc ++ d) with
      | Some m => Js.toLowerCase (Regex.m_group1 m)
      | None => lang
      end
  end.

(** The concatenation with its first marker cut out and nothing else
    changed: "at most one marker removed" read on the whole stream. *)
Definition remove_first_marker (s : string) : string :=
  match Regex.match_language s with
  | Some m =>
      Js.take (Regex.m_index m) s
      ++ Js.drop (Regex.m_index m + String.length (Regex.m_all m)) s
  | None => s
  end.

(** The payload of the last chunk that has a result. *)
Definition latest_result (cs : list Chunk) : option string :=
  fold_left
    (fun acc c => match codeExecutionResult c with
                  | Some r => Some r
                  | None => acc
                  end)
    cs None.

(** Whether a tool-call card is open after [cs], [b] telling whether one was
    open before. *)
Definition tool_open (b : bool) (cs : list Chunk) : bool :=
  fold_left
    (fun b c => if carries_code c then false else carries_tool_list c || b)
    cs b.

Definition is_result_card (n : Node) : bool :=
  match n with ResultCardEl => true | _ => false end.

(** Events among which no new prompt is submitted. *)
Definition is_submit (ev : Event) : bool :=
  match ev with Submit => true | _ => false end.

Definition no_submit (evs : list Event) : bool :=
  forallb (fun ev => negb (is_submit ev)) evs.

(** Two worlds that differ at most in the [AppState]. *)
Definition same_page (w1 w2 : World) : Prop :=
  sp w1 = sp w2 /\ microtasks w1 = microtasks w2 /\
  unhandledRejections w1 = unhandledRejections w2 /\
  highlighted w1 = highlighted w2.

(** How many result cards the document holds. *)
Definition result_cards (p : StreamProcessor) : nat :=
  List.length (filter is_result_card (modelMessage p)).

(** The invariant: the result card is in the document when and only when
    the processor holds it, and never twice. *)
Definition result_card_attached (p : StreamProcessor) : Prop :=
  result_cards p = if is_some (resultCard p) then 1 else 0.

Definition is_error_card (n : Node) : bool :=
  match n with ErrorCard _ => true | _ => false end.

(** No channel puts an error card in the document. *)
Definition no_error_card (p : StreamProcessor) : Prop :=
  existsb is_error_card (modelMessage p) = false.

(** "The error message with any leading bracketed [[code]] prefix removed",
    read on the message alone: a message that opens with a bracket loses
    everything up to its first closing bracket and the white space after
    it; any other message is unchanged. *)
Fixpoint after_closing_bracket (s : string) : option string :=
  match s with
  | EmptyString => None
  | String c s' => if Ascii.eqb c "]" then Some s' else after_closing_bracket s'
  end.

Definition strip_leading_code (msg : string) : string :=
  match msg with
  | String c s' =>
      if Ascii.eqb c "[" then
        match after_closing_bracket s' with
        | Some rest => Js.trimStart rest
        | None => msg
        end
      else msg
  | EmptyString => msg
  end.

(** A bracketed code the pattern closes at its first bracket, and a message
    tail without opening bracket. *)
Fixpoint plain_code (s : string) : bool :=
  match s with
  | EmptyString => true
  | String c s' =>
      negb (Ascii.eqb c "]") && negb (Js.is_line_terminator c) && plain_code s'
  end.

Fixpoint no_opening_bracket (s : string) : bool :=
  match s with
  | EmptyString => true
  | String c s' => negb (Ascii.eqb c "[") && no_opening_bracket s'
  end.

(** A message cut into stretches of text, each followed by a bracketed
    token [[code]] and one more character, and a last stretch: the message
    itself, and the stretches alone. *)
Fixpoint with_tokens (segs : list (string * string * ascii)) (tail : string)
  : string :=
  match segs with
  | [] => tail
  | (pre, code, w) :: rest =>
      pre ++ "[" ++ code ++ String "]" (String w (with_tokens rest tail))
  end.

Fixpoint without_tokens (segs : list (string * string * ascii)) (tail : string)
  : string :=
  match segs with
  | [] => tail
  | (pre, _, _) :: rest => pre ++ without_tokens rest tail
  end.

(** The stretch holds no opening bracket, the code no closing bracket and no
    line break, and the character after the token is white space. *)
Definition token_ok (seg : string * string * ascii) : bool :=
  let '(pre, code, w) := seg in
  no_opening_bracket pre && plain_code code && Js.is_white_space w.

(** Two renderers to run the model on: one that returns its input as the
    markup, one that throws on every input. *)
Definition render_verbatim (s : string) : string + Error := inl s.

Definition render_error : Error := mkError (Some "render failed").

Definition render_throws (s : string) : string + Error := inr render_error.

(** Chunks with a single payload. *)
Definition text_chunk (t : string) : Chunk := mkChunk (Some t) None None None.
Definition tool_chunk (l : list FunctionCall) : Chunk := mkChunk None (Some l) None None.
Definition code_chunk (c : string) : Chunk := mkChunk None None (Some c) None.
Definition result_chunk (r : string) : Chunk := mkChunk None None None (Some r).

(** ** The rest of the turn handler and of the page *)

(** The pattern of line 467: the literal [data:], a lazy group of any
    characters, the literal [;base64,], a greedy group of any characters. *)
Module DataUri.

(** The greedy group at the end of the pattern: up to the first line
    terminator. *)
Fixpoint line_prefix (s : string) : string :=
  match s with
  | EmptyString => EmptyString
  | String c s' =>
      if Js.is_line_terminator c then EmptyString else String c (line_prefix s')
  end.

(** The pattern once [data:] is consumed: the lazy group stops at the
    nearest [;base64,] and does not cross a line terminator. *)
Fixpoint after_scheme (s : string) : option (string * string) :=
  match Js.strip_prefix ";base64," s with
  | Some rest => Some (EmptyString, line_prefix rest)
  | None =>
      match s with
      | EmptyString => None
      | String c s' =>
          if Js.is_line_terminator c then None
          else
            match after_scheme s' with
            | Some (mime, data) => Some (String c mime, data)
            | None => None
            end
      end
  end.

Definition here (s : string) : option (string * string) :=
  match Js.strip_prefix "data:" s with
  | Some rest => after_scheme rest
  | None => None
  end.

(** [imageToSend.match(...)]: the groups [(mimeType, data)] of the leftmost
    match, or [None] for [null]. *)
Fixpoint match_data_uri (s : string) : option (string * string) :=
  match here s with
  | Some m => Some m
  | None =>
      match s with
      | EmptyString => None
      | String _ s' => match_data_uri s'
      end
  end.

End DataUri.

(** The parts of the message sent, lines 465-472. *)
Inductive Part : Type :=
  | InlineData (data mimeType : string)
  | TextPart (text : string).

(** The children of the user's message, lines 437-448. *)
Inductive UserNode : Type :=
  | UserImage (src : string)
  | UserText (textContent : string).

Definition user_message (prompt : string) (imageToSend : option string)
  : list UserNode :=
  ((match imageToSend with
    | Some (String a s) => [UserImage (String a s)]
    | _ => []
    end)
   ++
   (match prompt with
    | EmptyString => []
    | _ => [UserText prompt]
    end))%list.

Section Submission.

Variable marked_parse : string -> string + Error.

(** The [TypeError] thrown when the array pattern of line 467 destructures
    [null]. *)
Variable type_error : Error.

(** [state.chat.sendMessageStream({ message })], awaited. *)
Variable sendMessageStream : list Part -> Error + list Event.

(** Lines 465-472. *)
Definition message_parts (prompt : string) (imageToSend : option string)
  : Error + list Part :=
  let image_part :=
    match imageToSend with
    | Some (String a s) =>
        match DataUri.match_data_uri (String a s) with
        | Some (mimeType, data) => inr [InlineData data mimeType]
        | None => inl type_error
        end
    | _ => inr []
    end in
  match image_part with
  | inl e => inl e
  | inr parts =>
      inr (parts ++ match prompt with
                    | EmptyString => []
                    | _ => [TextPart prompt]
                    end)%list
  end.

(** [handleFormSubmit(prompt, imageToSend, ...)] with lines 465-474 spelled
    out. *)
Definition submit_turn (prompt : string) (imageToSend : option string) : World :=
  handleFormSubmit marked_parse
    (match message_parts prompt imageToSend with
     | inl e => inl e
     | inr parts => sendMessageStream parts
     end).

End Submission.

(** The form: the value of the textarea, [state.capturedImageBase64], the
    source of the image shown in the preview container, and the [disabled]
    property of the submit button. *)
Record Composer : Type := mkComposer
  { promptValue : string;
    capturedImageBase64 : option string;
    imagePreview : option string;
    submitDisabled : bool }.

(** [toggleSubmitButton], lines 218-225. *)
Definition toggleSubmitButton (force : option bool) (a : AppState) (c : Composer)
  : Composer :=
  let hasText := (0 <? String.length (Js.trim (promptValue c)))%nat in
  let hasImage := Js.truthy (capturedImageBase64 c) in
  let isDisabled :=
    match force with
    | Some f => f
    | None => (negb hasText && negb hasImage) || isGenerating a
    end in
  {| promptValue := promptValue c;
     capturedImageBase64 := capturedImageBase64 c;
     imagePreview := imagePreview c;
     submitDisabled := isDisabled |}.

(** [displayImageThumbnail], lines 232-247. *)
Definition displayImageThumbnail (base64 : string) (a : AppState) (c : Composer)
  : Composer :=
  toggleSubmitButton None a
    {| promptValue := promptValue c;
       capturedImageBase64 := Some base64;
       imagePreview := Some base64;
       submitDisabled := submitDisabled c |}.

(** The [onclick] of the remove button, lines 239-243. *)
Definition remove_image (a : AppState) (c : Composer) : Composer :=
  toggleSubmitButton None a
    {| promptValue := promptValue c;
       capturedImageBase64 := None;
       imagePreview := None;
       submitDisabled := submitDisabled c |}.

(** The [input] listener of the textarea, lines 275-278. *)
Definition input_listener (value : string) (a : AppState) (c : Composer)
  : Composer :=
  toggleSubmitButton None a
    {| promptValue := value;
       capturedImageBase64 := capturedImageBase64 c;
       imagePreview := imagePreview c;
       submitDisabled := submitDisabled c |}.

(** The [submit] listener of the form, lines 287-299: the form afterwards,
    and the arguments [handleFormSubmit] is called with, if it is. *)
Definition submit_listener (c : Composer)
  : Composer * option (string * option string) :=
  let prompt := Js.trim (promptValue c) in
  let imageToSend := capturedImageBase64 c in
  if negb (Js.truthy (Some prompt)) && negb (Js.truthy imageToSend) then (c, None)
  else
    ({| promptValue := "";
        capturedImageBase64 := None;
        imagePreview := None;
        submitDisabled := submitDisabled c |},
     Some (prompt, imageToSend)).

(** The camera, lines 339-365: [state.mediaStream], the streams whose tracks
    run, whether the modal of the session is in the document, the alerts
    shown, and the form the capture writes to. *)
Record Camera : Type := mkCamera
  { mediaStream : option nat;
    running : list nat;
    modalAttached : bool;
    alerts : nat;
    composer : Composer }.

(** [stopCamera], lines 340-345. *)
Definition stopCamera (k : Camera) : Camera :=
  match mediaStream k with
  | Some s =>
      {| mediaStream := None;
         running := remove Nat.eq_dec s (running k);
         modalAttached := modalAttached k;
         alerts := alerts k;
         composer := composer k |}
  | None => k
  end.

Definition remove_modal (k : Camera) : Camera :=
  {| mediaStream := mediaStream k; running := running k;
     modalAttached := false; alerts := alerts k; composer := composer k |}.

(** What follows a click on the camera button: [getUserMedia] resolves with
    a stream or rejects, or one of the two buttons of the modal is
    clicked. *)
Inductive CameraEvent : Type :=
  | Granted (stream : nat)
  | Denied
  | CancelClick
  | CaptureClick (dataUrl : string).

(** The click itself up to its [await]: the modal is appended. *)
Definition camera_click (k : Camera) : Camera :=
  {| mediaStream := mediaStream k; running := running k;
     modalAttached := true; alerts := alerts k; composer := composer k |}.

Definition camera_step (a : AppState) (k : Camera) (ev : CameraEvent) : Camera :=
  match ev with
  | Granted s =>
      {| mediaStream := Some s; running := s :: running k;
         modalAttached := modalAttached k; alerts := alerts k;
         composer := composer k |}
  | Denied =>
      remove_modal
        (stopCamera
           {| mediaStream := mediaStream k; running := running k;
              modalAttached := modalAttached k; alerts := S (alerts k);
              composer := composer k |})
  | CancelClick => remove_modal (stopCamera k)
  | CaptureClick dataUrl =>
      remove_modal
        (stopCamera
           {| mediaStream := mediaStream k; running := running k;
              modalAttached := modalAttached k; alerts := alerts k;
              composer := displayImageThumbnail dataUrl a (composer k) |})
  end.

Definition camera_session (a : AppState) (k : Camera) (evs : list CameraEvent)
  : Camera :=
  fold_left (camera_step a) evs (camera_click k).

(** ** Further notions *)

Definition is_text_card (n : Node) : bool :=
  match n with TextCardEl => true | _ => false end.

Definition is_code_card (n : Node) : bool :=
  match n with CodeCardEl => true | _ => false end.

Definition is_card (n : Node) : bool :=
  is_text_card n || is_tool_call_card n || is_code_card n || is_result_card n.

Definition count_nodes (f : Node -> bool) (p : StreamProcessor) : nat :=
  List.length (filter f (modelMessage p)).

Definition one_if {A : Type} (o : option A) : nat :=
  if is_some o then 1 else 0.

(** Every card the processor holds is in the document once, and the
    document holds nothing else. *)
Definition cards_attached (p : StreamProcessor) : Prop :=
  count_nodes is_text_card p = one_if (textCard p) /\
  count_nodes is_tool_call_card p = one_if (toolCallCard p) /\
  count_nodes is_code_card p = one_if (codeCard p) /\
  count_nodes is_result_card p = one_if (resultCard p) /\
  forallb is_card (modelMessage p) = true.

(** Whether the processor holds a card at all. *)
Definition any_card (p : StreamProcessor) : bool :=
  is_some (textCard p) || is_some (toolCallCard p) ||
  is_some (codeCard p) || is_some (resultCard p).

Definition carries_nothing (c : Chunk) : bool :=
  negb (carries_text c) && negb (carries_tool_list c) &&
  negb (carries_code c) && negb (is_some (codeExecutionResult c)).

(** The last executable code that is not empty, [init] when there is
    none. *)
Definition latest_code (init : string) (cs : list Chunk) : string :=
  fold_left
    (fun acc c => match executableCode c with
                  | Some (String a s) => String a s
                  | _ => acc
                  end)
    cs init.

(** The code shown in the tool-call card after [cs], [init] being what it
    showed before. *)
Definition tool_preview (init : option string) (cs : list Chunk) : option string :=
  fold_left
    (fun acc c =>
       if carries_code c then None
       else match functionCalls c with
            | Some l => Some (Js.join (map call_code l))
            | None => acc
            end)
    cs init.

Fixpoint string_forallb (f : ascii -> bool) (s : string) : bool :=
  match s with
  | EmptyString => true
  | String c s' => f c && string_forallb f s'
  end.

(** A language name: lower-case letters, digits and underscores, at least
    one. *)
Definition lang_char (c : ascii) : bool :=
  Js.is_word_char c && negb (Js.is_upper c).

Definition lang_ok (s : string) : bool :=
  match s with
  | EmptyString => false
  | _ => string_forallb lang_char s
  end.

(** The language and the label of the code card are such names. *)
Definition language_is_name (p : StreamProcessor) : Prop :=
  lang_ok (detectedLanguage p) = true /\
  match codeCard p with
  | Some card => lang_ok (cc_language card) = true
  | None => True
  end.

(** Whether some closing bracket of [s] is followed by white space. *)
Fixpoint has_closed_token (s : string) : bool :=
  match s with
  | EmptyString => false
  | String c s' =>
      (Ascii.eqb c "]" &&
       match s' with
       | String w _ => Js.is_white_space w
       | EmptyString => false
       end)
      || has_closed_token s'
  end.

Definition no_line_break (s : string) : bool :=
  string_forallb (fun c => negb (Js.is_line_terminator c)) s.

Definition no_semicolon (s : string) : bool :=
  string_forallb (fun c => negb (Ascii.eqb c ";")) s.

Definition is_word (s : string) : bool :=
  match s with
  | EmptyString => false
  | _ => string_forallb Js.is_word_char s
  end.

(** * Properties *)

Example match_language_ex1 :
  Regex.match_language "Explanation. Language: javascript
" = Some (Regex.mkMatch 13 "Language: javascript" "javascript").
Proof. reflexivity. Qed.

Example match_language_ex2 :
  Regex.match_language "the language: C++ and Language: go" =
  Some (Regex.mkMatch 4 "language: C" "C").
Proof. reflexivity. Qed.

Example remove_brackets_ex1 :
  Regex.remove_brackets "[500] Server [x]y [retry] later" = "Server later".
Proof. reflexivity. Qed.

Example trim_ex1 : Js.trim "  a b
 " = "a b".
Proof. reflexivity. Qed.

(** The model run on the scenarios the specification lists. *)
Example scenario_marker_then_code :
  let p := after_chunks render_verbatim
             [text_chunk "Explanation. Language: javascript
"; code_chunk "console.log(1)"] in
  textCard p = Some "Explanation." /\
  codeCard p = Some (mkCodeCard "javascript" "console.log(1)") /\
  toolCallCard p = None /\
  modelMessage p = [TextCardEl; CodeCardEl].
Proof. vm_compute. repeat split. Qed.

Example scenario_empty_stream :
  modelMessage (sp (handleFormSubmit render_verbatim (inr []))) = [NoOutputCard].
Proof. reflexivity. Qed.

Example scenario_tool_then_code :
  let w := handleFormSubmit render_verbatim
             (inr [Yield (tool_chunk [mkFunctionCall (Some (mkArgs (Some "print(")));
                                      mkFunctionCall None]);
                   Yield (code_chunk "print(1)"); Yield (result_chunk "1")]) in
  modelMessage (sp w) = [CodeCardEl; ResultCardEl] /\
  codeCard (sp w) = Some (mkCodeCard "python" "print(1)") /\
  highlighted w = [ToolCallCode; CodeCardCode].
Proof. vm_compute. repeat split. Qed.


(** ** The channels touch their own fields only *)

Section Channels.

Variable marked_parse : string -> string + Error.

Lemma updateText_frame (t : option string) (p : StreamProcessor) :
  let p' := fst (updateText marked_parse t p) in
  toolCallCard p' = toolCallCard p /\ codeCard p' = codeCard p /\
  resultCard p' = resultCard p /\
  elementsToHighlight p' = elementsToHighlight p.
Proof.
  unfold updateText. destruct t as [[|c s]|]; simpl; auto.
  destruct (Regex.match_language _); simpl;
    destruct (textCard p); simpl;
    destruct (marked_parse _); simpl; auto.
Qed.

Lemma updateToolCall_frame (l : option (list FunctionCall)) (p : StreamProcessor) :
  let p' := updateToolCall l p in
  accumulatedText p' = accumulatedText p /\
  detectedLanguage p' = detectedLanguage p /\ textCard p' = textCard p /\
  codeCard p' = codeCard p /\ resultCard p' = resultCard p.
Proof.
  unfold updateToolCall. destruct l; simpl; auto.
  destruct (toolCallCard p); simpl; auto.
Qed.

Lemma updateExecutableCode_frame (e : option string) (p : StreamProcessor) :
  let p' := updateExecutableCode e p in
  accumulatedText p' = accumulatedText p /\
  detectedLanguage p' = detectedLanguage p /\ textCard p' = textCard p /\
  resultCard p' = resultCard p.
Proof.
  unfold updateExecutableCode. destruct e as [[|c s]|]; simpl; auto.
  destruct p as [mm acc lang els tc [tcc|] [cc|] rc]; simpl; auto.
Qed.

Lemma updateResult_frame (r : option string) (p : StreamProcessor) :
  let p' := updateResult r p in
  accumulatedText p' = accumulatedText p /\
  detectedLanguage p' = detectedLanguage p /\ textCard p' = textCard p /\
  toolCallCard p' = toolCallCard p /\ codeCard p' = codeCard p /\
  elementsToHighlight p' = elementsToHighlight p.
Proof.
  unfold updateResult. destruct r; simpl; [|repeat split].
  destruct (resultCard p); simpl; repeat split.
Qed.

(** The tool-call card after one chunk. *)
Lemma process_chunk_toolCallCard (c : Chunk) (p : StreamProcessor) :
  is_some (toolCallCard (fst (process_chunk marked_parse c p))) =
  if carries_code c then false
  else carries_tool_list c || is_some (toolCallCard p).
Proof.
  unfold process_chunk, carries_code, carries_tool_list.
  destruct (updateText marked_parse (text c) p) as [p1 pr] eqn:E. simpl.
  pose proof (updateText_frame (text c) p) as F. rewrite E in F. simpl in F.
  destruct F as (Ft & _).
  match goal with |- context [updateResult ?r ?q] =>
    destruct (updateResult_frame r q) as (_ & _ & _ & -> & _) end.
  rewrite <- Ft. clear Ft E.
  unfold updateExecutableCode, updateToolCall.
  destruct p1 as [mm acc lang els tc [tcc|] [cc|] rc];
    destruct (executableCode c) as [[|a s]|];
    destruct (functionCalls c); reflexivity.
Qed.

(** The code card after one chunk. *)
Lemma process_chunk_codeCard (c : Chunk) (p : StreamProcessor) :
  is_some (codeCard (fst (process_chunk marked_parse c p))) =
  carries_code c || is_some (codeCard p).
Proof.
  unfold process_chunk, carries_code.
  destruct (updateText marked_parse (text c) p) as [p1 pr] eqn:E. simpl.
  pose proof (updateText_frame (text c) p) as F. rewrite E in F. simpl in F.
  destruct F as (_ & Fc & _).
  match goal with |- context [updateResult ?r ?q] =>
    destruct (updateResult_frame r q) as (_ & _ & _ & _ & -> & _) end.
  destruct (updateToolCall_frame (functionCalls c) p1) as (_ & _ & _ & Fc' & _).
  rewrite <- Fc, <- Fc'.
  generalize (updateToolCall (functionCalls c) p1). intro q.
  unfold updateExecutableCode.
  destruct (executableCode c) as [[|a s]|]; simpl; try reflexivity.
  destruct q as [mm acc lang els tc [tcc|] [cc|] rc]; reflexivity.
Qed.

Lemma apply_chunk_toolCallCard (c : Chunk) (p : StreamProcessor) :
  is_some (toolCallCard (apply_chunk marked_parse p c)) =
  if carries_code c then false
  else carries_tool_list c || is_some (toolCallCard p).
Proof.
  rewrite <- process_chunk_toolCallCard. unfold apply_chunk.
  destruct (process_chunk marked_parse c p) as [q [| |]]; reflexivity.
Qed.

Lemma apply_chunk_codeCard (c : Chunk) (p : StreamProcessor) :
  is_some (codeCard (apply_chunk marked_parse p c)) =
  carries_code c || is_some (codeCard p).
Proof.
  rewrite <- process_chunk_codeCard. unfold apply_chunk.
  destruct (process_chunk marked_parse c p) as [q [| |]]; reflexivity.
Qed.

(** ** The loop on a stream nobody stops *)

Lemma loop_body_sp (c : Chunk) (w : World) :
  microtasks w = [] ->
  let w' := run_microtasks (loop_body marked_parse c w) in
  sp w' = apply_chunk marked_parse (sp w) c /\ microtasks w' = [] /\
  app w' = app w /\ highlighted w' = highlighted w.
Proof.
  intros M. unfold loop_body, apply_chunk.
  destruct (process_chunk marked_parse c (sp w)) as [q pr].
  destruct pr; simpl; rewrite ?M; simpl; auto.
Qed.

Lemma process_loop_yields (cs : list Chunk) :
  forall w, isGenerating (app w) = true -> microtasks w = [] ->
  let r := process_loop marked_parse (map Yield cs) w in
  snd r = Normal /\ sp (fst r) = apply_chunks marked_parse cs (sp w) /\
  microtasks (fst r) = [] /\ app (fst r) = app w /\
  highlighted (fst r) = highlighted w.
Proof.
  induction cs as [|c cs IH]; intros w G M; simpl.
  - auto.
  - rewrite G. simpl.
    destruct (loop_body_sp c w M) as (Hs & Hm & Ha & Hh).
    specialize (IH (run_microtasks (loop_body marked_parse c w))).
    rewrite Ha in IH. specialize (IH G Hm).
    destruct IH as (I1 & I2 & I3 & I4 & I5).
    repeat split; auto.
    + rewrite I2, Hs. reflexivity.
    + rewrite I5, Hh. reflexivity.
Qed.

Lemma after_chunks_apply (cs : list Chunk) :
  after_chunks marked_parse cs =
  apply_chunks marked_parse cs (newStreamProcessor []).
Proof.
  unfold after_chunks.
  destruct (process_loop_yields cs (start [])) as (_ & H & _); auto.
Qed.

(** Once the flag is cleared, and as long as no new prompt is submitted,
    the loop leaves the world as it is. *)
Lemma process_loop_stopped (evs : list Event) :
  forall w, no_submit evs = true -> isGenerating (app w) = false ->
  let r := process_loop marked_parse evs w in
  sp (fst r) = sp w /\ microtasks (fst r) = microtasks w /\
  unhandledRejections (fst r) = unhandledRejections w /\
  highlighted (fst r) = highlighted w.
Proof.
  induction evs as [|[| |c|e] evs IH]; intros w N G; simpl in *; auto.
  - apply (IH (stop_click w) N). reflexivity.
  - discriminate.
  - rewrite G. simpl. auto.
Qed.

End Channels.

(** ** Which cards are open after a run of chunks *)

Section Cards.

Variable marked_parse : string -> string + Error.

Lemma apply_chunks_toolCallCard (cs : list Chunk) :
  forall p,
  is_some (toolCallCard (apply_chunks marked_parse cs p)) =
  tool_open (is_some (toolCallCard p)) cs.
Proof.
  unfold apply_chunks, tool_open.
  induction cs as [|c cs IH]; intros p; simpl; [reflexivity|].
  rewrite IH, apply_chunk_toolCallCard. reflexivity.
Qed.

Lemma apply_chunks_codeCard (cs : list Chunk) :
  forall p,
  is_some (codeCard (apply_chunks marked_parse cs p)) =
  existsb carries_code cs || is_some (codeCard p).
Proof.
  unfold apply_chunks.
  induction cs as [|c cs IH]; intros p; simpl; [reflexivity|].
  rewrite IH, apply_chunk_codeCard.
  destruct (carries_code c), (existsb carries_code cs), (is_some (codeCard p));
    reflexivity.
Qed.

(** The text channel is the only one that writes the text card, the
    accumulated text and the language. *)
Lemma process_chunk_text_frame (c : Chunk) (p : StreamProcessor) :
  let r := process_chunk marked_parse c p in
  let u := updateText marked_parse (text c) p in
  textCard (fst r) = textCard (fst u) /\
  accumulatedText (fst r) = accumulatedText (fst u) /\
  detectedLanguage (fst r) = detectedLanguage (fst u) /\
  snd r = snd u.
Proof.
  unfold process_chunk.
  destruct (updateText marked_parse (text c) p) as [p1 pr]. simpl.
  match goal with |- context [updateResult ?r ?q] =>
    destruct (updateResult_frame r q) as (-> & -> & -> & _) end.
  match goal with |- context [updateExecutableCode ?r ?q] =>
    destruct (updateExecutableCode_frame r q) as (-> & -> & -> & _) end.
  destruct (updateToolCall_frame (functionCalls c) p1) as (-> & -> & -> & _).
  auto.
Qed.

End Cards.

Lemma tool_open_spec (cs : list Chunk) :
  forall b,
  tool_open b cs = true <->
  (exists pre c post,
      cs = (pre ++ c :: post)%list /\ carries_tool_list c = true /\
      forall d, In d (c :: post) -> carries_code d = false)
  \/ (b = true /\ forall d, In d cs -> carries_code d = false).
Proof.
  unfold tool_open.
  induction cs as [|c cs IH]; intros b; simpl.
  - split.
    + intros ->. right. split; [reflexivity | intros d []].
    + intros [(pre & c & post & E & _) | (-> & _)]; [|reflexivity].
      destruct pre; discriminate.
  - rewrite IH. clear IH. split.
    + intros [(pre & c0 & post & -> & T & N) | (S & N)].
      * left. exists (c :: pre), c0, post. auto.
      * destruct (carries_code c) eqn:C; [discriminate|].
        destruct (carries_tool_list c) eqn:T; simpl in S.
        -- left. exists [], c, cs. repeat split; auto.
           intros d [<- | H]; auto.
        -- right. split; [assumption|]. intros d [<- | H]; auto.
    + intros [(pre & c0 & post & E & T & N) | (-> & N)].
      * destruct pre as [|x pre]; simpl in E; inversion E; subst.
        -- right. rewrite (N c0 (or_introl eq_refl)), T. split; [reflexivity|].
           intros d H. apply N. right. assumption.
        -- left. exists pre, c0, post. auto.
      * right. rewrite (N c (or_introl eq_refl)).
        split; [apply orb_true_r|]. intros d H. apply N. right. assumption.
Qed.

Lemma existsb_none (cs : list Chunk) :
  (forall d, In d cs -> carries_code d = false) -> existsb carries_code cs = false.
Proof.
  induction cs as [|c cs IH]; intros N; simpl; [reflexivity|].
  rewrite (N c (or_introl eq_refl)), IH; [reflexivity|].
  intros d H. apply N. right. assumption.
Qed.

Lemma is_some_true {A : Type} (o : option A) : is_some o = true <-> o <> None.
Proof. destruct o; simpl; split; congruence. Qed.

(** ** The result card *)

Section ResultCard.

Variable marked_parse : string -> string + Error.

Lemma filter_result_snoc (l : list Node) (n : Node) :
  is_result_card n = false ->
  filter is_result_card (l ++ [n])%list = filter is_result_card l.
Proof.
  intros H. rewrite filter_app. simpl. rewrite H. apply app_nil_r.
Qed.

Lemma filter_result_without_tool (l : list Node) :
  filter is_result_card (filter (fun n => negb (is_tool_call_card n)) l) =
  filter is_result_card l.
Proof.
  induction l as [|n l IH]; simpl; [reflexivity|].
  destruct n; simpl; rewrite ?IH; reflexivity.
Qed.

Lemma updateText_result_cards (t : option string) (p : StreamProcessor) :
  result_cards (fst (updateText marked_parse t p)) = result_cards p.
Proof.
  unfold updateText, result_cards.
  destruct t as [[|a s]|]; simpl; try reflexivity.
  destruct (Regex.match_language _); simpl;
    destruct (textCard p); simpl;
    destruct (marked_parse _); simpl;
    rewrite ?filter_result_snoc; reflexivity.
Qed.

Lemma updateToolCall_result_cards (l : option (list FunctionCall)) (p : StreamProcessor) :
  result_cards (updateToolCall l p) = result_cards p.
Proof.
  unfold updateToolCall, result_cards.
  destruct l; simpl; try reflexivity.
  destruct (toolCallCard p); simpl; rewrite ?filter_result_snoc; reflexivity.
Qed.

Lemma updateExecutableCode_result_cards (e : option string) (p : StreamProcessor) :
  result_cards (updateExecutableCode e p) = result_cards p.
Proof.
  unfold updateExecutableCode, result_cards.
  destruct e as [[|a s]|]; try reflexivity.
  destruct p as [mm acc lang els tc [tcc|] [cc|] rc]; simpl;
    rewrite ?filter_result_snoc, ?filter_result_without_tool; reflexivity.
Qed.

Lemma updateResult_result_cards (r : option string) (p : StreamProcessor) :
  result_cards (updateResult r p) =
  match r, resultCard p with
  | Some _, None => S (result_cards p)
  | _, _ => result_cards p
  end.
Proof.
  unfold updateResult, result_cards.
  destruct r; simpl; try reflexivity.
  destruct (resultCard p); simpl; try reflexivity.
  rewrite filter_app, length_app. simpl. lia.
Qed.

Lemma updateResult_resultCard (r : option string) (p : StreamProcessor) :
  resultCard (updateResult r p) =
  match r with Some v => Some v | None => resultCard p end.
Proof.
  unfold updateResult. destruct r; reflexivity.
Qed.

Lemma process_chunk_result (c : Chunk) (p : StreamProcessor) :
  let p' := fst (process_chunk marked_parse c p) in
  resultCard p' =
    match codeExecutionResult c with Some v => Some v | None => resultCard p end /\
  (result_card_attached p -> result_card_attached p').
Proof.
  unfold process_chunk, result_card_attached.
  destruct (updateText marked_parse (text c) p) as [p1 pr] eqn:E. simpl.
  pose proof (updateText_frame marked_parse (text c) p) as F.
  pose proof (updateText_result_cards (text c) p) as N.
  rewrite E in F, N. simpl in F, N. destruct F as (_ & _ & Fr & _).
  rewrite updateResult_resultCard, updateResult_result_cards.
  destruct (updateExecutableCode_frame (executableCode c)
              (updateToolCall (functionCalls c) p1)) as (_ & _ & _ & ->).
  destruct (updateToolCall_frame (functionCalls c) p1) as (_ & _ & _ & _ & ->).
  rewrite updateExecutableCode_result_cards, updateToolCall_result_cards.
  rewrite Fr, N. split; [reflexivity|].
  destruct (codeExecutionResult c), (resultCard p); simpl; intros H; lia.
Qed.

Lemma apply_chunk_result (c : Chunk) (p : StreamProcessor) :
  let p' := apply_chunk marked_parse p c in
  resultCard p' =
    match codeExecutionResult c with Some v => Some v | None => resultCard p end /\
  (result_card_attached p -> result_card_attached p').
Proof.
  pose proof (process_chunk_result c p) as H. unfold apply_chunk.
  destruct (process_chunk marked_parse c p) as [q [| |]]; exact H.
Qed.

Lemma apply_chunks_result (cs : list Chunk) :
  forall p, result_card_attached p ->
  let p' := apply_chunks marked_parse cs p in
  resultCard p' =
    fold_left (fun acc c => match codeExecutionResult c with
                            | Some r => Some r
                            | None => acc
                            end) cs (resultCard p) /\
  result_card_attached p'.
Proof.
  unfold apply_chunks.
  induction cs as [|c cs IH]; intros p I; simpl; [auto|].
  destruct (apply_chunk_result c p) as (R & I').
  specialize (IH _ (I' I)). simpl in IH. rewrite R in IH. exact IH.
Qed.

End ResultCard.

(** C6.  A chunk whose result is defined, the empty string included, leaves
    a result card whose body is that payload; after any sequence of chunks
    the body of the result card is the payload of the last chunk that had
    one, and the card is in the document once if some chunk had a result
    and not at all otherwise. *)
Theorem C6_result_card :
  forall (marked_parse : string -> string + Error),
  (forall p t f e r,
      resultCard (fst (process_chunk marked_parse (mkChunk t f e (Some r)) p)) = Some r) /\
  (forall cs,
      resultCard (after_chunks marked_parse cs) = latest_result cs /\
      List.length (filter is_result_card (modelMessage (after_chunks marked_parse cs))) =
      if is_some (latest_result cs) then 1 else 0) /\
  resultCard (after_chunks marked_parse [result_chunk ""]) = Some "" /\
  resultCard (after_chunks marked_parse []) = None.
Proof.
  intros mp. split; [|split; [|split; reflexivity]].
  - intros p t f e r.
    destruct (process_chunk_result mp (mkChunk t f e (Some r)) p) as (H & _).
    exact H.
  - intros cs. rewrite after_chunks_apply.
    destruct (apply_chunks_result mp cs (newStreamProcessor [])) as (R & I);
      [reflexivity|].
    unfold latest_result. simpl in R. split; [exact R|].
    unfold result_card_attached, result_cards in I. rewrite I, R. reflexivity.
Qed.

(** ** Stopping *)

Section Stop.

Variable marked_parse : string -> string + Error.

Lemma process_loop_after_stop (pre mid : list Event) :
  no_submit mid = true ->
  forall w,
  sp (fst (process_loop marked_parse (pre ++ StopClick :: mid)%list w)) =
  sp (fst (process_loop marked_parse pre w)).
Proof.
  intros N.
  induction pre as [|[| |c|e] pre IH]; intros w; simpl.
  - destruct (process_loop_stopped marked_parse mid (stop_click w) N) as (H & _);
      [reflexivity | exact H].
  - apply IH.
  - apply IH.
  - destruct (negb (isGenerating (app w))); [reflexivity | apply IH].
  - reflexivity.
Qed.

Lemma process_loop_stopped_chunk (n : nat) (c : Chunk) (post : list Event) :
  forall w, isGenerating (app w) = false ->
  let r := process_loop marked_parse (repeat StopClick n ++ Yield c :: post)%list w in
  snd r = Normal /\ same_page (fst r) w.
Proof.
  unfold same_page.
  induction n as [|n IH]; intros w G; simpl.
  - rewrite G. simpl. repeat split; reflexivity.
  - apply (IH (stop_click w)). reflexivity.
Qed.

Lemma process_loop_stop_then_chunk (pre post : list Event) (n : nat) (c : Chunk) :
  forall w,
  let r1 := process_loop marked_parse
              (pre ++ StopClick :: repeat StopClick n ++ Yield c :: post)%list w in
  let r2 := process_loop marked_parse pre w in
  snd r1 = snd r2 /\ same_page (fst r1) (fst r2).
Proof.
  induction pre as [|[| |c'|e] pre IH]; intros w; simpl.
  - apply (process_loop_stopped_chunk n c post (stop_click w)). reflexivity.
  - apply IH.
  - apply IH.
  - destruct (negb (isGenerating (app w)));
      [unfold same_page; repeat split; reflexivity | apply IH].
  - unfold same_page; repeat split; reflexivity.
Qed.

Lemma handleFormSubmit_same_page (evs1 evs2 : list Event) :
  (let r1 := process_loop marked_parse evs1 (start []) in
   let r2 := process_loop marked_parse evs2 (start []) in
   snd r1 = snd r2 /\ same_page (fst r1) (fst r2)) ->
  handleFormSubmit marked_parse (inr evs1) = handleFormSubmit marked_parse (inr evs2).
Proof.
  unfold handleFormSubmit, process, same_page. simpl.
  destruct (process_loop marked_parse evs1 (start [])) as [w1 k1].
  destruct (process_loop marked_parse evs2 (start [])) as [w2 k2].
  simpl. intros (-> & S & M & U & H).
  destruct w1 as [a1 s1 m1 u1 h1], w2 as [a2 s2 m2 u2 h2]. simpl in *. subst.
  destruct k2; reflexivity.
Qed.

End Stop.

(** C7: the code does not do what the claim says.  The flag the loop tests
    is shared by all turns, and a new submission sets it again: with the
    chunks "one", a click on the stop button, a new submission and the
    chunks " two" and " three", the flag is cleared after the click and the
    stopped turn still applies both chunks that follow.  When a chunk is the
    next thing after the click (and clicks repeated), the turn ends exactly
    as if the stream had ended where the click came, whatever follows that
    chunk: there the stop holds, and no chunk read after it is applied. *)
Theorem C7_stop_lost_on_resubmission :
  (let stopped := [Yield (text_chunk "one"); StopClick] in
   let evs := (stopped ++ [Submit; Yield (text_chunk " two");
                           Yield (text_chunk " three")])%list in
   isGenerating (app (fst (process_loop render_verbatim stopped (start [])))) = false /\
   textCard (sp (fst (process_loop render_verbatim stopped (start [])))) = Some "one" /\
   textCard (sp (fst (process_loop render_verbatim evs (start [])))) =
     Some "one two three" /\
   textCard (sp (handleFormSubmit render_verbatim (inr evs))) =
     Some "one two three") /\
  (forall (marked_parse : string -> string + Error)
          (pre post : list Event) (n : nat) (c : Chunk),
      handleFormSubmit marked_parse
        (inr (pre ++ StopClick :: repeat StopClick n ++ Yield c :: post)%list) =
      handleFormSubmit marked_parse (inr pre)).
Proof.
  split; [vm_compute; repeat split|].
  intros mp pre post n c. apply handleFormSubmit_same_page.
  apply process_loop_stop_then_chunk.
Qed.

(** ** Executable code is a snapshot *)

Lemma updateExecutableCode_idempotent (e : option string) (p : StreamProcessor) :
  updateExecutableCode e (updateExecutableCode e p) = updateExecutableCode e p.
Proof.
  unfold updateExecutableCode. destruct e as [[|a s]|]; try reflexivity.
  destruct p as [mm acc lang els tc [tcc|] [cc|] rc]; reflexivity.
Qed.

Lemma updateExecutableCode_content (a : ascii) (s : string) (p : StreamProcessor) :
  option_map cc_textContent (codeCard (updateExecutableCode (Some (String a s)) p)) =
  Some (String a s).
Proof.
  unfold updateExecutableCode.
  destruct p as [mm acc lang els tc [tcc|] [cc|] rc]; reflexivity.
Qed.

(** C8.  Applying the same executable code twice leaves the processor, and
    so the code card, as applying it once; the content of the code element
    after a payload that is not empty is that payload, whatever the element
    held before; and a chunk that carries only executable code can be
    replayed without effect. *)
Theorem C8_executable_code_snapshot :
  forall (marked_parse : string -> string + Error)
         (e : option string) (p : StreamProcessor),
  updateExecutableCode e (updateExecutableCode e p) = updateExecutableCode e p /\
  (forall a s,
      option_map cc_textContent
        (codeCard (updateExecutableCode (Some (String a s)) p)) = Some (String a s)) /\
  fst (process_chunk marked_parse (mkChunk None None e None)
         (fst (process_chunk marked_parse (mkChunk None None e None) p))) =
  fst (process_chunk marked_parse (mkChunk None None e None) p).
Proof.
  intros mp e p. split; [apply updateExecutableCode_idempotent|].
  split; [intros a s; apply updateExecutableCode_content|].
  unfold process_chunk. simpl. apply updateExecutableCode_idempotent.
Qed.

(** ** The empty text delta *)

Section EmptyDelta.

Variable marked_parse : string -> string + Error.

Lemma updateText_textCard (t : option string) (p : StreamProcessor) :
  let u := updateText marked_parse t p in
  is_some (textCard (fst u)) = Js.truthy t || is_some (textCard p) /\
  (forall html, snd u = Awaiting html -> Js.truthy t = true).
Proof.
  unfold updateText. destruct t as [[|a s]|]; simpl.
  - split; [reflexivity | intros; discriminate].
  - destruct p as [mm acc lang els [tc|] tcc cc rc]; simpl;
      destruct (Regex.match_language _); simpl;
      destruct (marked_parse _); simpl; auto.
  - split; [reflexivity | intros; discriminate].
Qed.

Lemma apply_chunk_textCard (c : Chunk) (p : StreamProcessor) :
  is_some (textCard (apply_chunk marked_parse p c)) =
  carries_text c || is_some (textCard p).
Proof.
  unfold apply_chunk, carries_text.
  destruct (process_chunk_text_frame marked_parse c p) as (T & _ & _ & P).
  destruct (updateText_textCard (text c) p) as (U & A).
  destruct (process_chunk marked_parse c p) as [q pr]. simpl in *.
  destruct pr; simpl; rewrite ?T; try exact U.
  rewrite (A html); [reflexivity | symmetry; exact P].
Qed.

Lemma apply_chunks_textCard (cs : list Chunk) :
  forall p,
  is_some (textCard (apply_chunks marked_parse cs p)) =
  existsb carries_text cs || is_some (textCard p).
Proof.
  unfold apply_chunks.
  induction cs as [|c cs IH]; intros p; simpl; [reflexivity|].
  rewrite IH, apply_chunk_textCard.
  destruct (carries_text c), (existsb carries_text cs), (is_some (textCard p));
    reflexivity.
Qed.

End EmptyDelta.

(** C10.  On the empty string [updateText] returns at once and changes
    nothing; a chunk whose text is the empty string leaves the text card,
    the accumulated text and the language as they were and queues no
    rendering; and after any sequence of chunks the text card exists if and
    only if some chunk carried a text that is not empty. *)
Theorem C10_empty_delta_ignored :
  forall (marked_parse : string -> string + Error),
  (forall p, updateText marked_parse (Some "") p = (p, Resolved)) /\
  (forall p f e r,
      let res := process_chunk marked_parse (mkChunk (Some "") f e r) p in
      textCard (fst res) = textCard p /\
      accumulatedText (fst res) = accumulatedText p /\
      detectedLanguage (fst res) = detectedLanguage p /\
      snd res = Resolved) /\
  (forall cs,
      is_some (textCard (after_chunks marked_parse cs)) = existsb carries_text cs).
Proof.
  intros mp. split; [reflexivity|]. split.
  - intros p f e r res. subst res.
    destruct (process_chunk_text_frame mp (mkChunk (Some "") f e r) p)
      as (T & A & L & P).
    simpl in *. auto.
  - intros cs. rewrite after_chunks_apply, apply_chunks_textCard.
    simpl. apply orb_false_r.
Qed.

(** ** The bracket pattern of the error handler *)

Lemma bracket_tail_plain (code rest : string) :
  plain_code code = true ->
  Regex.bracket_tail (code ++ "] " ++ rest) = Some (String.length code + 2).
Proof.
  induction code as [|c code IH]; simpl; intros H; [reflexivity|].
  apply andb_true_iff in H. destruct H as (H & P).
  apply andb_true_iff in H. destruct H as (C & L).
  apply negb_true_iff in C, L. rewrite C, L. simpl.
  specialize (IH P). simpl in IH. rewrite IH. reflexivity.
Qed.

Lemma remove_brackets_from_skip (a b : string) (k : nat) :
  Regex.remove_brackets_from (String.length a + k) (a ++ b) =
  Regex.remove_brackets_from k b.
Proof.
  induction a as [|c a IH]; simpl; [reflexivity | exact IH].
Qed.

Lemma remove_brackets_none (s : string) :
  no_opening_bracket s = true -> Regex.remove_brackets_from 0 s = s.
Proof.
  induction s as [|c s IH]; simpl; intros H; [reflexivity|].
  apply andb_true_iff in H. destruct H as (C & N).
  apply negb_true_iff in C. rewrite C, (IH N). reflexivity.
Qed.

Lemma string_length_app (a b : string) :
  String.length (a ++ b) = String.length a + String.length b.
Proof. induction a as [|c a IH]; simpl; [reflexivity | rewrite IH; reflexivity]. Qed.

Lemma string_app_assoc (a b c : string) : (a ++ b) ++ c = a ++ b ++ c.
Proof. induction a as [|x a IH]; simpl; [reflexivity | rewrite IH; reflexivity]. Qed.

Lemma remove_brackets_leading (code rest : string) :
  plain_code code = true -> no_opening_bracket rest = true ->
  Regex.remove_brackets ("[" ++ code ++ "] " ++ rest) = rest.
Proof.
  intros P N. unfold Regex.remove_brackets.
  change ("[" ++ code ++ "] " ++ rest) with (String "[" (code ++ "] " ++ rest)).
  cbn [Regex.remove_brackets_from Regex.bracket_here].
  change (Ascii.eqb "[" "[") with true. cbv iota.
  rewrite (bracket_tail_plain code rest P).
  cbn [option_map pred].
  rewrite <- string_app_assoc.
  replace (String.length code + 2) with (String.length (code ++ "] ") + 0)
    by (rewrite string_length_app; simpl; lia).
  rewrite remove_brackets_from_skip. apply remove_brackets_none. assumption.
Qed.

(** ** The turn handler *)

Section Turn.

Variable marked_parse : string -> string + Error.

Lemma loop_body_app (c : Chunk) (w : World) :
  app (run_microtasks (loop_body marked_parse c w)) = app w.
Proof.
  unfold loop_body.
  destruct (process_chunk marked_parse c (sp w)) as [q [| |]]; reflexivity.
Qed.

Lemma process_loop_stops_then_throws (n : nat) (e : Error) (post : list Event) :
  forall w,
  snd (process_loop marked_parse (repeat StopClick n ++ StreamThrows e :: post)%list w)
  = Throw e.
Proof.
  induction n as [|n IH]; intros w; simpl; [reflexivity | apply IH].
Qed.

Lemma process_loop_throws (cs : list Chunk) (n : nat) (e : Error) (post : list Event) :
  forall w, isGenerating (app w) = true ->
  snd (process_loop marked_parse
         (map Yield cs ++ repeat StopClick n ++ StreamThrows e :: post)%list w)
  = Throw e.
Proof.
  induction cs as [|c cs IH]; intros w G; simpl.
  - apply process_loop_stops_then_throws.
  - rewrite G. simpl. apply IH. rewrite loop_body_app. exact G.
Qed.

Lemma handleFormSubmit_caught (evs : list Event) (e : Error) :
  snd (process_loop marked_parse evs (start [])) = Throw e ->
  modelMessage (sp (handleFormSubmit marked_parse (inr evs))) =
  [ErrorCard (errorBody_of e)].
Proof.
  unfold handleFormSubmit, process.
  destruct (process_loop marked_parse evs (start [])) as [w k]. simpl.
  intros ->. reflexivity.
Qed.

Lemma handleFormSubmit_finally (send : Error + list Event) :
  app (handleFormSubmit marked_parse send) =
  {| isGenerating := false; stopButtonHidden := true |}.
Proof.
  unfold handleFormSubmit. destruct send as [e | evs]; [reflexivity|].
  destruct (process marked_parse evs (start [])) as [w [|e]]; reflexivity.
Qed.

Lemma existsb_error_snoc (l : list Node) (n : Node) :
  is_error_card n = false ->
  existsb is_error_card (l ++ [n])%list = existsb is_error_card l.
Proof.
  intros H. rewrite existsb_app. simpl. rewrite H. rewrite !orb_false_r. reflexivity.
Qed.

Lemma existsb_error_filter (f : Node -> bool) (l : list Node) :
  existsb is_error_card l = false ->
  existsb is_error_card (filter f l) = false.
Proof.
  induction l as [|n l IH]; simpl; [reflexivity|].
  intros H. apply orb_false_iff in H. destruct H as (H1 & H2).
  destruct (f n); simpl; rewrite ?H1; auto.
Qed.

Lemma process_chunk_no_error_card (c : Chunk) (p : StreamProcessor) :
  no_error_card p -> no_error_card (fst (process_chunk marked_parse c p)).
Proof.
  unfold no_error_card, process_chunk. intros H.
  assert (H1 : existsb is_error_card
                 (modelMessage (fst (updateText marked_parse (text c) p))) = false).
  { unfold updateText. destruct (text c) as [[|a s]|]; simpl; try exact H.
    destruct p as [mm acc lang els [tc|] tcc cc rc]; simpl in *;
      destruct (Regex.match_language _); simpl;
      destruct (marked_parse _); simpl;
      rewrite ?existsb_error_snoc; auto. }
  destruct (updateText marked_parse (text c) p) as [p1 pr]. simpl in *.
  assert (H2 : existsb is_error_card
                 (modelMessage (updateToolCall (functionCalls c) p1)) = false).
  { unfold updateToolCall. destruct (functionCalls c); simpl; try exact H1.
    destruct (toolCallCard p1); simpl; rewrite ?existsb_error_snoc; auto. }
  revert H2. generalize (updateToolCall (functionCalls c) p1). intros p2 H2.
  assert (H3 : existsb is_error_card
                 (modelMessage (updateExecutableCode (executableCode c) p2)) = false).
  { unfold updateExecutableCode.
    destruct (executableCode c) as [[|a s]|]; try exact H2.
    destruct p2 as [mm acc lang els tc [tcc|] [cc|] rc]; simpl in *;
      rewrite ?existsb_error_snoc; auto using existsb_error_filter. }
  revert H3. generalize (updateExecutableCode (executableCode c) p2). intros p3 H3.
  unfold updateResult. destruct (codeExecutionResult c); simpl; try exact H3.
  destruct (resultCard p3); simpl; rewrite ?existsb_error_snoc; auto.
Qed.

Lemma apply_chunks_no_error_card (cs : list Chunk) :
  forall p, no_error_card p -> no_error_card (apply_chunks marked_parse cs p).
Proof.
  unfold apply_chunks.
  induction cs as [|c cs IH]; intros p H; simpl; [exact H|].
  apply IH. unfold apply_chunk.
  pose proof (process_chunk_no_error_card c p H) as N.
  destruct (process_chunk marked_parse c p) as [q [| |]]; exact N.
Qed.

Lemma handleFormSubmit_no_error_card (cs : list Chunk) :
  existsb is_error_card
    (modelMessage (sp (handleFormSubmit marked_parse (inr (map Yield cs))))) = false.
Proof.
  unfold handleFormSubmit, process.
  destruct (process_loop_yields marked_parse cs (start [])) as (K & S & _);
    try reflexivity.
  destruct (process_loop marked_parse (map Yield cs) (start [])) as [w k].
  simpl in K, S. subst k. simpl.
  pose proof (apply_chunks_no_error_card cs (newStreamProcessor []) eq_refl) as N.
  rewrite <- S in N. unfold no_error_card in N.
  destruct (modelMessage (sp w)) as [|x l] eqn:M; simpl; [reflexivity|].
  rewrite M. exact N.
Qed.

End Turn.

Lemma bracket_tail_token (code rest : string) (w : ascii) :
  plain_code code = true -> Js.is_white_space w = true ->
  Regex.bracket_tail (code ++ String "]" (String w rest)) =
  Some (String.length code + 2).
Proof.
  intros P W. induction code as [|c code IH]; simpl in *.
  - rewrite W. reflexivity.
  - apply andb_true_iff in P. destruct P as (P & Q).
    apply andb_true_iff in P. destruct P as (C & L).
    apply negb_true_iff in C, L. rewrite C, L. simpl.
    rewrite (IH Q). reflexivity.
Qed.

(** Line terminators are white space, so a closing bracket before one closes
    a token; a line terminator met before that makes the match fail. *)
Lemma bracket_tail_line_break (code rest : string) (lt : ascii) :
  plain_code code = true -> Js.is_line_terminator lt = true ->
  Regex.bracket_tail (code ++ String lt rest) = None.
Proof.
  intros P L. induction code as [|c code IH]; simpl in *.
  - rewrite L.
    destruct (Ascii.eqb lt "]") eqn:E; [|reflexivity].
    apply Ascii.eqb_eq in E. subst lt. discriminate L.
  - apply andb_true_iff in P. destruct P as (P & Q).
    apply andb_true_iff in P. destruct P as (C & L').
    apply negb_true_iff in C, L'. rewrite C, L'. simpl.
    rewrite (IH Q). reflexivity.
Qed.

Lemma remove_brackets_stretch (pre rest : string) :
  no_opening_bracket pre = true ->
  Regex.remove_brackets_from 0 (pre ++ rest) =
  pre ++ Regex.remove_brackets_from 0 rest.
Proof.
  induction pre as [|c pre IH]; intros N; [reflexivity|].
  simpl in N. apply andb_true_iff in N. destruct N as (C & N).
  apply negb_true_iff in C.
  change (String c pre ++ rest) with (String c (pre ++ rest)).
  cbn [Regex.remove_brackets_from Regex.bracket_here]. rewrite C.
  rewrite (IH N). reflexivity.
Qed.

(** One token, wherever it stands: the text before it is kept, the token
    goes with the white space that follows it, and the pattern is applied
    again to what comes after. *)
Lemma remove_brackets_token (pre code rest : string) (w : ascii) :
  no_opening_bracket pre = true -> plain_code code = true ->
  Js.is_white_space w = true ->
  Regex.remove_brackets_from 0
    (pre ++ "[" ++ code ++ String "]" (String w rest)) =
  pre ++ Regex.remove_brackets_from 0 rest.
Proof.
  intros N P W. rewrite (remove_brackets_stretch pre _ N). f_equal.
  change ("[" ++ code ++ String "]" (String w rest))
    with (String "[" (code ++ String "]" (String w rest))).
  cbn [Regex.remove_brackets_from Regex.bracket_here].
  change (Ascii.eqb "[" "[") with true. cbv iota.
  rewrite (bracket_tail_token code rest w P W).
  cbn [option_map pred].
  change (code ++ String "]" (String w rest))
    with (code ++ String "]" (String w "") ++ rest).
  rewrite <- string_app_assoc.
  replace (String.length code + 2)
    with (String.length (code ++ String "]" (String w "")) + 0)
    by (rewrite string_length_app; simpl; lia).
  apply remove_brackets_from_skip.
Qed.

Lemma remove_brackets_tokens (segs : list (string * string * ascii)) (tail : string) :
  forallb token_ok segs = true -> no_opening_bracket tail = true ->
  Regex.remove_brackets (with_tokens segs tail) = without_tokens segs tail.
Proof.
  unfold Regex.remove_brackets. intros F T.
  induction segs as [|[[pre code] w] segs IH]; simpl in *.
  - apply remove_brackets_none. exact T.
  - apply andb_true_iff in F. destruct F as (F & G).
    apply andb_true_iff in F. destruct F as (F & W).
    apply andb_true_iff in F. destruct F as (N & P).
    change (pre ++ String "[" (code ++ String "]" (String w (with_tokens segs tail))))
      with (pre ++ "[" ++ code ++ String "]" (String w (with_tokens segs tail))).
    rewrite (remove_brackets_token pre code _ w N P W), (IH G). reflexivity.
Qed.

(** A bracket whose line ends before any closing bracket is kept, with all
    that follows it when that holds no opening bracket. *)
Lemma remove_brackets_line_break (code rest : string) (lt : ascii) :
  plain_code code = true -> no_opening_bracket code = true ->
  Js.is_line_terminator lt = true -> no_opening_bracket rest = true ->
  Regex.remove_brackets ("[" ++ code ++ String lt rest) =
  "[" ++ code ++ String lt rest.
Proof.
  intros P N L R. unfold Regex.remove_brackets.
  change ("[" ++ code ++ String lt rest) with (String "[" (code ++ String lt rest)).
  cbn [Regex.remove_brackets_from Regex.bracket_here].
  change (Ascii.eqb "[" "[") with true. cbv iota.
  rewrite (bracket_tail_line_break code rest lt P L). cbn [option_map].
  f_equal. rewrite (remove_brackets_stretch code _ N). f_equal.
  apply remove_brackets_none. simpl. rewrite R.
  destruct (Ascii.eqb lt "[") eqn:E; [|reflexivity].
  apply Ascii.eqb_eq in E. subst lt. discriminate L.
Qed.

(** C5, as amended.  When [sendMessageStream] throws, or the stream throws
    after any chunks and clicks on the stop button, the document of the turn
    holds the error card and nothing else, and whatever the outcome of the
    turn the flag is cleared and the stop button hidden.  The body of the
    card is the default text when the error has no message or an empty one;
    otherwise it is the message without its bracketed tokens, wherever they
    stand: in a message made of stretches of text without opening bracket,
    separated by tokens [[code]] whose code holds no closing bracket and no
    line break, each followed by one white-space character, every token goes
    with that character and the stretches stay as they are; a bracket whose
    line ends before any closing bracket stays in the body. *)
Theorem C5_turn_failure :
  forall (marked_parse : string -> string + Error)
         (cs : list Chunk) (n : nat) (e : Error) (post : list Event)
         (segs : list (string * string * ascii)) (tail : string)
         (code rest : string) (lt : ascii),
  forallb token_ok segs = true -> no_opening_bracket tail = true ->
  plain_code code = true -> no_opening_bracket code = true ->
  Js.is_line_terminator lt = true -> no_opening_bracket rest = true ->
  modelMessage (sp (handleFormSubmit marked_parse (inl e))) =
    [ErrorCard (errorBody_of e)] /\
  modelMessage
    (sp (handleFormSubmit marked_parse
           (inr (map Yield cs ++ repeat StopClick n ++ StreamThrows e :: post)%list))) =
    [ErrorCard (errorBody_of e)] /\
  errorBody_of (mkError None) = "An unknown error occurred." /\
  errorBody_of (mkError (Some "")) = "An unknown error occurred." /\
  errorBody_of (mkError (Some (with_tokens segs tail))) =
    match with_tokens segs tail with
    | EmptyString => "An unknown error occurred."
    | _ => without_tokens segs tail
    end /\
  errorBody_of (mkError (Some ("[" ++ code ++ String lt rest))) =
    "[" ++ code ++ String lt rest /\
  (forall send,
      app (handleFormSubmit marked_parse send) =
      {| isGenerating := false; stopButtonHidden := true |}).
Proof.
  intros mp cs n e post segs tail code rest lt F T P N L R.
  split; [reflexivity|].
  split; [apply handleFormSubmit_caught, process_loop_throws; reflexivity|].
  split; [reflexivity|]. split; [reflexivity|].
  split; [|split; [|apply handleFormSubmit_finally]].
  - unfold errorBody_of. cbn [message].
    destruct (with_tokens segs tail) as [|a m] eqn:E; [reflexivity|].
    cbn [Js.or_else]. rewrite <- E. apply remove_brackets_tokens; assumption.
  - unfold errorBody_of. cbn [message].
    change (Js.or_else (Some ("[" ++ code ++ String lt rest))
              "An unknown error occurred.")
      with ("[" ++ code ++ String lt rest).
    apply remove_brackets_line_break; assumption.
Qed.

Lemma C5_turn_failure_witness :
  modelMessage
    (sp (handleFormSubmit render_verbatim
           (inr [Yield (text_chunk "partial");
                 StreamThrows
                   (mkError (Some "[503] Service [retry] unavailable"))]))) =
  [ErrorCard "Service unavailable"] /\
  errorBody_of (mkError (Some "[503] Service [retry] unavailable")) =
    "Service unavailable" /\
  errorBody_of (mkError (Some ("[a" ++ String "010" "] b"))) =
    "[a" ++ String "010" "] b".
Proof.
  destruct (C5_turn_failure render_verbatim [text_chunk "partial"] 0
              (mkError (Some "[503] Service [retry] unavailable")) []
              [("", "503", " "%char); ("Service ", "retry", " "%char)]
              "unavailable" "a" "] b" "010"%char
              eq_refl eq_refl eq_refl eq_refl eq_refl eq_refl)
    as (_ & H & _ & _ & B & K & _).
  split; [exact H | split; [exact B | exact K]].
Defined.

(** C5, as stated, fails on a message whose bracketed token is not at its
    head: the card shows the message without the token, where removing a
    leading prefix leaves the message as it is. *)
Lemma C5_counterexample :
  let msg := "Failed at [step 2] now" in
  let w := handleFormSubmit render_verbatim
             (inr [Yield (text_chunk "partial"); StreamThrows (mkError (Some msg))]) in
  modelMessage (sp w) = [ErrorCard "Failed at now"] /\
  modelMessage (sp w) <> [ErrorCard (strip_leading_code msg)].
Proof. vm_compute. split; [reflexivity | discriminate]. Qed.

(** C9: the code does not do what the claim says.  With a renderer that
    throws, a turn whose stream delivers one text chunk ends without error
    card: the text card stays in the document with an empty body and the
    rejection is handled by nobody; and whatever the renderer does, a turn
    whose stream delivers chunks and ends shows no error card. *)
Theorem C9_render_failure_not_surfaced :
  (let w := handleFormSubmit render_throws (inr [Yield (text_chunk "Hello")]) in
   modelMessage (sp w) = [TextCardEl] /\ textCard (sp w) = Some "" /\
   unhandledRejections w = [render_error]) /\
  (forall (marked_parse : string -> string + Error) (cs : list Chunk),
      existsb is_error_card
        (modelMessage (sp (handleFormSubmit marked_parse (inr (map Yield cs))))) = false).
Proof.
  split; [vm_compute; repeat split|].
  intros mp cs. apply handleFormSubmit_no_error_card.
Qed.

(** ** The marker pattern *)

Lemma literal_ci_app (pat s rest t : string) :
  Regex.literal_ci pat s = Some rest ->
  Regex.literal_ci pat (s ++ t) = Some (rest ++ t).
Proof.
  revert s. induction pat as [|p pat IH]; intros s H; simpl in *.
  - inversion H. reflexivity.
  - destruct s as [|c s]; [discriminate|]. simpl.
    destruct (Js.char_eq_ci p c); [apply IH; assumption | discriminate].
Qed.

(** What the literal consumed: a prefix as long as the literal. *)
Lemma literal_ci_split (pat s rest : string) :
  Regex.literal_ci pat s = Some rest ->
  s = Js.take (String.length pat) s ++ rest.
Proof.
  revert s. induction pat as [|p pat IH]; intros s H; simpl in *.
  - inversion H. destruct s; reflexivity.
  - destruct s as [|c s]; [discriminate|].
    destruct (Js.char_eq_ci p c); [|discriminate].
    simpl. f_equal. apply IH. assumption.
Qed.

Lemma literal_ci_length (pat s rest : string) :
  Regex.literal_ci pat s = Some rest -> String.length pat <= String.length s.
Proof.
  revert s. induction pat as [|p pat IH]; intros s H; simpl in *; [lia|].
  destruct s as [|c s]; [discriminate|].
  destruct (Js.char_eq_ci p c); [|discriminate].
  simpl. apply IH in H. lia.
Qed.

Lemma word_run_app (s t : string) :
  Regex.word_run s <> "" -> Regex.word_run (s ++ t) <> "".
Proof.
  destruct s as [|c s]; simpl; [congruence|].
  destruct (Js.is_word_char c); [discriminate | congruence].
Qed.

Lemma word_run_prefix (s : string) :
  s = Regex.word_run s ++ Js.drop (String.length (Regex.word_run s)) s.
Proof.
  induction s as [|c s IH]; simpl; [reflexivity|].
  destruct (Js.is_word_char c); simpl; [f_equal; exact IH | reflexivity].
Qed.

Lemma word_run_first (w t : string) :
  Regex.word_run w = w -> w <> "" -> Regex.word_run (w ++ t) <> "".
Proof.
  destruct w as [|c w]; simpl; [congruence|].
  destruct (Js.is_word_char c); [discriminate | congruence].
Qed.

Lemma word_run_idempotent (s : string) :
  Regex.word_run (Regex.word_run s) = Regex.word_run s.
Proof.
  induction s as [|c s IH]; simpl; [reflexivity|].
  destruct (Js.is_word_char c) eqn:W; simpl; [rewrite W, IH|]; reflexivity.
Qed.

Lemma take_app_exact (a b : string) : Js.take (String.length a) (a ++ b) = a.
Proof. induction a as [|c a IH]; simpl; [destruct b|rewrite IH]; reflexivity. Qed.

Lemma drop_app_exact (a b : string) : Js.drop (String.length a) (a ++ b) = b.
Proof. induction a as [|c a IH]; simpl; [reflexivity | exact IH]. Qed.

Lemma take_length_le (n : nat) (s : string) :
  n <= String.length s -> String.length (Js.take n s) = n.
Proof.
  revert s. induction n as [|n IH]; intros [|c s] H; simpl in *;
    try reflexivity; try lia.
  rewrite IH; [reflexivity | lia].
Qed.

Lemma strip_prefix_app (a b : string) : Js.strip_prefix a (a ++ b) = Some b.
Proof.
  induction a as [|c a IH]; simpl; [reflexivity|].
  rewrite Ascii.eqb_refl. exact IH.
Qed.

Lemma strip_prefix_split (pat s rest : string) :
  Js.strip_prefix pat s = Some rest -> s = pat ++ rest.
Proof.
  revert s. induction pat as [|p pat IH]; intros s H; simpl in *.
  - inversion H. reflexivity.
  - destruct s as [|c s]; [discriminate|].
    destruct (Ascii.eqb p c) eqn:E; [|discriminate].
    apply Ascii.eqb_eq in E. subst c. f_equal. apply IH. assumption.
Qed.

Lemma replace_unfold (pat rep s : string) :
  Js.replace pat rep s =
  match Js.strip_prefix pat s with
  | Some rest => rep ++ rest
  | None =>
      match s with
      | EmptyString => EmptyString
      | String c s' => String c (Js.replace pat rep s')
      end
  end.
Proof. destruct s; reflexivity. Qed.

(** The shape of a match at the head of [s]: the ten code units of the
    literal, then the run of word characters, which is not empty. *)
Lemma language_here_shape (s m g : string) :
  Regex.language_here s = Some (m, g) ->
  exists l r,
    s = l ++ g ++ r /\ m = l ++ g /\ g <> "" /\ Regex.word_run g = g /\
    forall t, Regex.literal_ci "Language: " (l ++ t) = Some t.
Proof.
  unfold Regex.language_here.
  destruct (Regex.literal_ci "Language: " s) as [rest|] eqn:L; [|discriminate].
  destruct (Regex.word_run rest) as [|c w] eqn:W; [discriminate|].
  intros H.
  assert (Hg : g = String c w) by congruence.
  assert (Hm : m = Js.take (10 + String.length (String c w)) s) by congruence.
  clear H. subst g.
  pose proof (literal_ci_split _ _ _ L) as S.
  pose proof (word_run_prefix rest) as R. rewrite W in R.
  set (l := Js.take (String.length "Language: ") s) in *.
  set (r := Js.drop (String.length (String c w)) rest) in *.
  assert (Ll : String.length l = 10).
  { unfold l. apply take_length_le. apply (literal_ci_length _ _ _ L). }
  exists l, r. repeat split.
  - rewrite <- R. exact S.
  - rewrite Hm, S, R, <- string_app_assoc.
    replace (10 + String.length (String c w))
      with (String.length (l ++ String c w))
      by (rewrite string_length_app, Ll; reflexivity).
    apply take_app_exact.
  - discriminate.
  - rewrite <- W. apply word_run_idempotent.
  - intros t. rewrite S in L.
    clear - L Ll.
    assert (G : forall pat a b t,
               String.length a = String.length pat ->
               Regex.literal_ci pat (a ++ b) = Some b ->
               Regex.literal_ci pat (a ++ t) = Some t).
    { induction pat as [|p pat IH]; intros [|x a] b u E H; simpl in *;
        try discriminate; try reflexivity.
      destruct (Js.char_eq_ci p x); [|discriminate].
      apply (IH a b u); [lia | assumption]. }
    apply (G _ l rest t); [exact Ll | exact L].
Qed.

(** A string that opens with a matched marker matches at its head. *)
Lemma language_here_marker (s m g t : string) :
  Regex.language_here s = Some (m, g) -> Regex.language_here (m ++ t) <> None.
Proof.
  intros H. destruct (language_here_shape _ _ _ H) as (l & r & _ & -> & G & W & L).
  unfold Regex.language_here. rewrite string_app_assoc, L.
  pose proof (word_run_first g t W G) as N.
  destruct (Regex.word_run (g ++ t)); [congruence | discriminate].
Qed.

Lemma match_language_marker (s : string) :
  forall r t, Regex.match_language s = Some r ->
  Regex.language_here (Regex.m_all r ++ t) <> None.
Proof.
  induction s as [|c s IH]; intros r t; simpl.
  - discriminate.
  - destruct (Regex.language_here (String c s)) as [[m g]|] eqn:H.
    + intros E. inversion E. subst r. simpl.
      apply (language_here_marker _ _ _ t H).
    + destruct (Regex.match_language s) as [r'|] eqn:M; [|discriminate].
      intros E. inversion E. subst r. simpl. apply IH. reflexivity.
Qed.

(** [replace(langMatch[0], '')] cuts the text at the index of the match. *)
Lemma replace_match (s : string) :
  forall r, Regex.match_language s = Some r ->
  Js.replace (Regex.m_all r) "" s =
  Js.take (Regex.m_index r) s
  ++ Js.drop (Regex.m_index r + String.length (Regex.m_all r)) s.
Proof.
  induction s as [|c s IH]; intros r.
  - simpl. discriminate.
  - cbn [Regex.match_language].
    destruct (Regex.language_here (String c s)) as [[m g]|] eqn:H.
    + intros E. inversion E. subst r. cbn [Regex.m_index Regex.m_all].
      destruct (language_here_shape _ _ _ H) as (l & r & S & -> & _).
      rewrite replace_unfold, S, <- string_app_assoc, strip_prefix_app.
      simpl. rewrite drop_app_exact. reflexivity.
    + destruct (Regex.match_language s) as [r'|] eqn:M; [|discriminate].
      intros E. inversion E. subst r. cbn [Regex.m_index Regex.m_all].
      rewrite replace_unfold.
      destruct (Js.strip_prefix (Regex.m_all r') (String c s)) as [rest|] eqn:P.
      * apply strip_prefix_split in P.
        pose proof (match_language_marker s r' rest M) as N.
        rewrite <- P, H in N. congruence.
      * rewrite (IH r' eq_refl). reflexivity.
Qed.

Lemma language_here_app (s t : string) :
  Regex.language_here s <> None -> Regex.language_here (s ++ t) <> None.
Proof.
  unfold Regex.language_here.
  destruct (Regex.literal_ci "Language: " s) as [rest|] eqn:L; [|congruence].
  rewrite (literal_ci_app _ _ _ t L).
  destruct (Regex.word_run rest) eqn:W; [congruence|]. intros _.
  assert (N : Regex.word_run rest <> "") by (rewrite W; discriminate).
  apply (word_run_app rest t) in N.
  destruct (Regex.word_run (rest ++ t)); [congruence | discriminate].
Qed.

(** A text that holds a marker still holds one when more text follows. *)
Lemma match_language_app (s t : string) :
  Regex.match_language s <> None -> Regex.match_language (s ++ t) <> None.
Proof.
  induction s as [|c s IH]; [simpl; congruence|].
  change (String c s ++ t) with (String c (s ++ t)).
  cbn [Regex.match_language].
  destruct (Regex.language_here (String c s)) as [[m g]|] eqn:H.
  - intros _.
    assert (N : Regex.language_here (String c s ++ t) <> None)
      by (apply language_here_app; rewrite H; discriminate).
    change (String c s ++ t) with (String c (s ++ t)) in N.
    destruct (Regex.language_here (String c (s ++ t))) as [[m' g']|];
      [discriminate | congruence].
  - destruct (Regex.match_language s) as [r|]; [|congruence]. intros _.
    destruct (Regex.language_here (String c (s ++ t))) as [[m' g']|];
      [discriminate|].
    destruct (Regex.match_language (s ++ t)); [discriminate|].
    exfalso. apply IH; [discriminate | reflexivity].
Qed.

Lemma match_language_prefix_none (s t : string) :
  Regex.match_language (s ++ t) = None -> Regex.match_language s = None.
Proof.
  intros H. destruct (Regex.match_language s) eqn:M; [|reflexivity].
  exfalso. apply (match_language_app s t); [rewrite M; discriminate | exact H].
Qed.

(** ** The text channel *)

Section TextChannel.

Variable marked_parse : string -> string + Error.

Lemma updateText_text (t : option string) (p : StreamProcessor) :
  let u := updateText marked_parse t p in
  let d := Js.or_else t "" in
  accumulatedText (fst u) = step_text (accumulatedText p) d /\
  detectedLanguage (fst u) =
    step_language (accumulatedText p) (detectedLanguage p) d /\
  (Js.truthy t = false -> textCard (fst u) = textCard p /\ snd u = Resolved) /\
  (Js.truthy t = true ->
   forall html, marked_parse (accumulatedText (fst u)) = inl html ->
                snd u = Awaiting html).
Proof.
  unfold updateText, step_text, step_language, strip_marker.
  destruct t as [[|a s]|]; simpl.
  - repeat split; auto. discriminate.
  - destruct p as [mm acc lang els tc tcc cc rc]. simpl.
    destruct (Regex.match_language (acc ++ String a s)) as [m|] eqn:M; simpl.
    + rewrite (replace_match _ _ M).
      destruct tc; simpl;
        destruct (marked_parse _) eqn:R; simpl;
        repeat split; try discriminate; intros; congruence.
    + destruct tc; simpl;
        destruct (marked_parse _) eqn:R; simpl;
        repeat split; try discriminate; intros; congruence.
  - repeat split; auto. discriminate.
Qed.

Lemma apply_chunk_text (c : Chunk) (p : StreamProcessor) :
  let p' := apply_chunk marked_parse p c in
  let d := Js.or_else (text c) "" in
  accumulatedText p' = step_text (accumulatedText p) d /\
  detectedLanguage p' =
    step_language (accumulatedText p) (detectedLanguage p) d /\
  (carries_text c = false -> textCard p' = textCard p) /\
  (carries_text c = true ->
   forall html, marked_parse (accumulatedText p') = inl html ->
                textCard p' = Some html).
Proof.
  unfold apply_chunk, carries_text.
  destruct (process_chunk_text_frame marked_parse c p) as (T & A & L & P).
  destruct (updateText_text (text c) p) as (UA & UL & UF & UT).
  destruct (process_chunk marked_parse c p) as [q pr]. simpl in *.
  rewrite <- A in UA, UT. rewrite <- L in UL. rewrite <- P in UF, UT.
  rewrite <- T in UF.
  assert (Q : accumulatedText match pr with
                              | Awaiting html => set_textCard (Some html) q
                              | _ => q
                              end = accumulatedText q)
    by (destruct pr; reflexivity).
  assert (Q' : detectedLanguage match pr with
                                | Awaiting html => set_textCard (Some html) q
                                | _ => q
                                end = detectedLanguage q)
    by (destruct pr; reflexivity).
  rewrite Q, Q'. repeat split; auto.
  - intros F. destruct (UF F) as (H1 & H2). rewrite H2. exact H1.
  - intros G html R. rewrite (UT G html R). reflexivity.
Qed.

Lemma apply_chunks_accumulated (cs : list Chunk) :
  forall p,
  accumulatedText (apply_chunks marked_parse cs p) =
  accumulate_from (accumulatedText p) (deltas cs).
Proof.
  unfold apply_chunks, accumulate_from, deltas.
  induction cs as [|c cs IH]; intros p; simpl; [reflexivity|].
  rewrite IH. destruct (apply_chunk_text c p) as (-> & _). reflexivity.
Qed.

Lemma apply_chunks_body (cs : list Chunk) (p : StreamProcessor) (html : string) :
  existsb carries_text cs = true ->
  marked_parse (accumulatedText (apply_chunks marked_parse cs p)) = inl html ->
  textCard (apply_chunks marked_parse cs p) = Some html.
Proof.
  unfold apply_chunks.
  induction cs as [|c cs IH] using rev_ind; [discriminate|].
  rewrite existsb_app, fold_left_app. simpl. rewrite orb_false_r.
  set (q := fold_left (apply_chunk marked_parse) cs p) in *.
  destruct (apply_chunk_text c q) as (A & _ & F & T).
  destruct (carries_text c) eqn:C.
  - intros _ R. apply (T eq_refl html R).
  - rewrite orb_false_r. intros E R. rewrite (F eq_refl).
    apply IH; [exact E|].
    rewrite A in R. unfold carries_text in C.
    destruct (text c) as [[|a s]|]; simpl in *; try discriminate; exact R.
Qed.

End TextChannel.

Lemma string_app_nil_r (s : string) : s ++ "" = s.
Proof. induction s as [|c s IH]; simpl; [|rewrite IH]; reflexivity. Qed.

Lemma step_text_no_marker (acc d rest : string) :
  Regex.match_language (acc ++ d ++ rest) = None ->
  step_text acc d = acc ++ d /\ forall lang, step_language acc lang d = lang.
Proof.
  intros H. unfold step_text, step_language, strip_marker.
  destruct d as [|a d]; [rewrite string_app_nil_r; auto|].
  rewrite <- string_app_assoc in H.
  rewrite (match_language_prefix_none _ _ H). auto.
Qed.

(** Without a marker in the whole text, nothing is cut and the language
    stays. *)
Lemma accumulate_no_marker (ds : list string) :
  forall acc,
  Regex.match_language (acc ++ Js.join ds) = None ->
  accumulate_from acc ds = acc ++ Js.join ds.
Proof.
  unfold accumulate_from.
  induction ds as [|d ds IH]; intros acc H; simpl in *.
  - symmetry. apply string_app_nil_r.
  - destruct (step_text_no_marker acc d (Js.join ds) H) as (-> & _).
    rewrite IH; rewrite string_app_assoc; [reflexivity | exact H].
Qed.

Lemma apply_chunks_language_no_marker
  (marked_parse : string -> string + Error) (cs : list Chunk) :
  forall p,
  Regex.match_language (accumulatedText p ++ Js.join (deltas cs)) = None ->
  detectedLanguage (apply_chunks marked_parse cs p) = detectedLanguage p.
Proof.
  unfold apply_chunks.
  induction cs as [|c cs IH]; intros p H; simpl in *; [reflexivity|].
  destruct (apply_chunk_text marked_parse c p) as (A & L & _).
  destruct (step_text_no_marker _ _ _ H) as (S1 & S2).
  rewrite IH.
  - rewrite L. apply S2.
  - rewrite A, S1, string_app_assoc. exact H.
Qed.

(** C1, as amended.  After any sequence of chunks of which one at least
    carries a text that is not empty, and provided the renderer accepts the
    accumulated text, the body of the text card is the rendering of the
    accumulated text; that text is built delta by delta, each delta that is
    not empty being appended and the first marker of the result, if there
    is one, cut out and the result trimmed, so that one marker can be
    removed at every delta; when the concatenation of the deltas holds no
    marker the accumulated text is that concatenation. *)
Theorem C1_text_card_body :
  forall (marked_parse : string -> string + Error) (cs : list Chunk) (html : string),
  existsb carries_text cs = true ->
  marked_parse (accumulate (deltas cs)) = inl html ->
  textCard (after_chunks marked_parse cs) = Some html /\
  accumulatedText (after_chunks marked_parse cs) = accumulate (deltas cs) /\
  (Regex.match_language (Js.join (deltas cs)) = None ->
   accumulate (deltas cs) = Js.join (deltas cs)).
Proof.
  intros mp cs html E R. rewrite after_chunks_apply.
  pose proof (apply_chunks_accumulated mp cs (newStreamProcessor [])) as A.
  simpl in A. fold (accumulate (deltas cs)) in A.
  split; [|split].
  - apply apply_chunks_body; [exact E | rewrite A; exact R].
  - exact A.
  - intros N. apply (accumulate_no_marker (deltas cs) ""). exact N.
Qed.

Lemma C1_text_card_body_witness :
  textCard (after_chunks render_verbatim
              [text_chunk "Explanation. Lang"; text_chunk "uage: javascript ";
               code_chunk "console.log(1)"]) = Some "Explanation.".
Proof.
  apply (C1_text_card_body render_verbatim
           [text_chunk "Explanation. Lang"; text_chunk "uage: javascript ";
            code_chunk "console.log(1)"] "Explanation."); reflexivity.
Defined.

(** C1, as stated, fails on two deltas that each hold a marker: both
    markers are removed.  The text rendered holds no marker, where the
    concatenation with its first marker removed still holds one; and the
    body is the rendering of none of the texts obtained from the
    concatenation by removing at most its first marker, trimmed or not. *)
Lemma C1_counterexample :
  let cs := [text_chunk "Intro. Language: rust "; text_chunk "More. Language: go "] in
  let whole := Js.join (deltas cs) in
  textCard (after_chunks render_verbatim cs) = Some "Intro.More." /\
  Regex.match_language "Intro.More." = None /\
  Regex.match_language (remove_first_marker whole) <> None /\
  ~ In (inl "Intro.More.")
       (map render_verbatim
          [whole; remove_first_marker whole;
           Js.trim whole; Js.trim (remove_first_marker whole)]).
Proof.
  vm_compute. split; [reflexivity|]. split; [reflexivity|].
  split; [discriminate|].
  intros [H|[H|[H|[H|[]]]]]; discriminate.
Qed.

(** C4, as amended.  The language starts as ["python"]; a chunk changes it
    only through its text, and only when the text accumulated with that
    delta holds a marker: it then becomes the name of the first such marker
    in lower case, whatever it was before, and that occurrence is cut out
    of the accumulated text; a sequence of chunks whose deltas hold no marker
    leaves the language as it started. *)
Theorem C4_detected_language :
  forall (marked_parse : string -> string + Error)
         (cs : list Chunk) (c : Chunk) (p : StreamProcessor),
  Regex.match_language (Js.join (deltas cs)) = None ->
  detectedLanguage (newStreamProcessor []) = "python" /\
  detectedLanguage (after_chunks marked_parse cs) = "python" /\
  detectedLanguage (fst (process_chunk marked_parse c p)) =
    step_language (accumulatedText p) (detectedLanguage p) (Js.or_else (text c) "") /\
  accumulatedText (fst (process_chunk marked_parse c p)) =
    step_text (accumulatedText p) (Js.or_else (text c) "").
Proof.
  intros mp cs c p N. split; [reflexivity|]. split.
  - rewrite after_chunks_apply.
    rewrite (apply_chunks_language_no_marker mp cs (newStreamProcessor []) N).
    reflexivity.
  - destruct (process_chunk_text_frame mp c p) as (_ & A & L & _).
    destruct (updateText_text mp (text c) p) as (UA & UL & _).
    rewrite A, L. auto.
Qed.

Lemma C4_detected_language_witness :
  detectedLanguage
    (fst (process_chunk render_verbatim (text_chunk "then Language: Go")
            (after_chunks render_verbatim [text_chunk "Plain text."]))) = "go".
Proof.
  destruct (C4_detected_language render_verbatim [text_chunk "Plain text."]
              (text_chunk "then Language: Go")
              (after_chunks render_verbatim [text_chunk "Plain text."]) eq_refl)
    as (_ & _ & H & _).
  rewrite H. reflexivity.
Defined.

(** C4, as stated, fails on a second marker: the language a first marker
    has set is replaced, and the second marker is stripped like the first. *)
Lemma C4_counterexample :
  let first := [text_chunk "Intro. Language: rust "] in
  let both := [text_chunk "Intro. Language: rust "; text_chunk "More. Language: go "] in
  detectedLanguage (after_chunks render_verbatim first) = "rust" /\
  detectedLanguage (after_chunks render_verbatim both) = "go" /\
  accumulatedText (after_chunks render_verbatim both) = "Intro.More.".
Proof. vm_compute. repeat split. Qed.

(** * Further properties of the interpreter *)

(** ** One card of each kind *)

Lemma filter_keeps_other (f : Node -> bool) (l : list Node) :
  (forall n, f n = true -> is_tool_call_card n = false) ->
  filter f (filter (fun n => negb (is_tool_call_card n)) l) = filter f l.
Proof.
  intros H. induction l as [|n l IH]; simpl; [reflexivity|].
  destruct (is_tool_call_card n) eqn:T; simpl.
  - destruct (f n) eqn:F; [rewrite (H n F) in T; discriminate | exact IH].
  - destruct (f n); rewrite IH; reflexivity.
Qed.

Lemma filter_tool_removed (l : list Node) :
  filter is_tool_call_card (filter (fun n => negb (is_tool_call_card n)) l) = [].
Proof.
  induction l as [|n l IH]; simpl; [reflexivity|].
  destruct (is_tool_call_card n) eqn:T; simpl; [exact IH|].
  rewrite T. exact IH.
Qed.

Lemma forallb_filter_keeps (g h : Node -> bool) (l : list Node) :
  forallb g l = true -> forallb g (filter h l) = true.
Proof.
  induction l as [|n l IH]; simpl; [reflexivity|].
  intros H. apply andb_true_iff in H. destruct H as (H1 & H2).
  destruct (h n); simpl; rewrite ?H1; auto.
Qed.

Lemma cards_attached_remove_tool (p : StreamProcessor) :
  cards_attached p ->
  cards_attached (set_toolCallCard None (remove_tool_call_card p)).
Proof.
  unfold cards_attached, count_nodes, one_if.
  destruct p as [mm acc lang els tc tcc cc rc]. simpl.
  intros (H1 & H2 & H3 & H4 & H5).
  rewrite filter_tool_removed.
  rewrite !filter_keeps_other by (intros [] E; try discriminate E; reflexivity).
  repeat split; auto using forallb_filter_keeps.
Qed.

Ltac append_card :=
  unfold cards_attached, count_nodes, one_if, append_child, push_highlight;
  simpl; intros (H1 & H2 & H3 & H4 & H5);
  rewrite !filter_app, !length_app, forallb_app; simpl;
  rewrite H1, H2, H3, H4, H5; simpl; repeat split; lia.

Section OneCard.

Variable marked_parse : string -> string + Error.

Lemma updateText_cards (t : option string) (p : StreamProcessor) :
  cards_attached p -> cards_attached (fst (updateText marked_parse t p)).
Proof.
  unfold updateText. destruct t as [[|a s]|]; simpl; auto.
  destruct p as [mm acc lang els [tc|] tcc cc rc]; simpl;
    destruct (Regex.match_language _); simpl;
    destruct (marked_parse _); simpl; auto; append_card.
Qed.

Lemma updateToolCall_cards (l : option (list FunctionCall)) (p : StreamProcessor) :
  cards_attached p -> cards_attached (updateToolCall l p).
Proof.
  unfold updateToolCall. destruct l as [l|]; auto.
  destruct p as [mm acc lang els tc [tcc|] cc rc]; simpl; [auto | append_card].
Qed.

Lemma updateExecutableCode_cards (e : option string) (p : StreamProcessor) :
  cards_attached p -> cards_attached (updateExecutableCode e p).
Proof.
  intros H. unfold updateExecutableCode. destruct e as [[|a s]|]; auto.
  assert (H' : cards_attached
                 match toolCallCard p with
                 | Some _ => set_toolCallCard None (remove_tool_call_card p)
                 | None => p
                 end)
    by (destruct (toolCallCard p); auto using cards_attached_remove_tool).
  revert H'. generalize (match toolCallCard p with
                         | Some _ => set_toolCallCard None (remove_tool_call_card p)
                         | None => p
                         end).
  clear H p. intros p.
  destruct p as [mm acc lang els tc tcc [cc|] rc]; simpl; [auto | append_card].
Qed.

Lemma updateResult_cards (r : option string) (p : StreamProcessor) :
  cards_attached p -> cards_attached (updateResult r p).
Proof.
  unfold updateResult. destruct r as [r|]; auto.
  destruct p as [mm acc lang els tc tcc cc [rc|]]; simpl; [auto | append_card].
Qed.

Lemma apply_chunk_cards (c : Chunk) (p : StreamProcessor) :
  cards_attached p -> cards_attached (apply_chunk marked_parse p c).
Proof.
  intros H. unfold apply_chunk.
  destruct (process_chunk_text_frame marked_parse c p) as (T & _ & _ & P).
  destruct (updateText_textCard marked_parse (text c) p) as (U & A).
  assert (I : cards_attached (fst (process_chunk marked_parse c p))).
  { unfold process_chunk.
    pose proof (updateText_cards (text c) p H) as H1.
    destruct (updateText marked_parse (text c) p) as [p1 pr]. simpl in *.
    auto using updateToolCall_cards, updateExecutableCode_cards, updateResult_cards. }
  destruct (process_chunk marked_parse c p) as [q pr]. simpl in *.
  destruct pr as [|html|e]; try exact I.
  assert (S : is_some (textCard q) = true)
    by (rewrite T, U, (A html (eq_sym P)); reflexivity).
  unfold cards_attached, count_nodes, one_if in *.
  destruct q as [mm acc lang els [tc|] tcc cc rc]; simpl in *;
    [exact I | discriminate].
Qed.

Lemma process_loop_cards (evs : list Event) :
  forall w, microtasks w = [] -> cards_attached (sp w) ->
  cards_attached (sp (fst (process_loop marked_parse evs w))).
Proof.
  induction evs as [|[| |c|e] evs IH]; intros w M H;
    cbn [process_loop fst].
  - exact H.
  - apply (IH (stop_click w)); assumption.
  - apply (IH (submit_click w)); assumption.
  - destruct (negb (isGenerating (app w))); [exact H|].
    destruct (loop_body_sp marked_parse c w M) as (S & M' & _).
    apply (IH (run_microtasks (loop_body marked_parse c w))); [exact M'|].
    rewrite S. apply apply_chunk_cards. exact H.
  - exact H.
Qed.

Lemma apply_chunks_cards (cs : list Chunk) :
  forall p, cards_attached p -> cards_attached (apply_chunks marked_parse cs p).
Proof.
  unfold apply_chunks.
  induction cs as [|c cs IH]; intros p H; simpl; auto using apply_chunk_cards.
Qed.

End OneCard.

Lemma cards_attached_new : cards_attached (newStreamProcessor []).
Proof. repeat split. Qed.

(** X1.  Whatever the events of the turn (chunks, clicks on the stop
    button, new submissions, a failing stream), the document of the turn
    holds each of the four cards at most once, holds a card exactly when the
    processor holds it, and holds nothing but these cards while the loop
    runs. *)
Theorem X1_one_card_of_each_kind :
  forall (marked_parse : string -> string + Error) (evs : list Event),
  let p := sp (fst (process_loop marked_parse evs (start []))) in
  count_nodes is_text_card p = one_if (textCard p) /\
  count_nodes is_tool_call_card p = one_if (toolCallCard p) /\
  count_nodes is_code_card p = one_if (codeCard p) /\
  count_nodes is_result_card p = one_if (resultCard p) /\
  forallb is_card (modelMessage p) = true.
Proof.
  intros mp evs.
  apply (process_loop_cards mp evs (start []) eq_refl cards_attached_new).
Qed.

(** ** The tool-call card and the code card on the page *)

Lemma in_iff_counted (f : Node -> bool) (x : Node) (l : list Node) :
  f x = true -> (forall n, f n = true -> n = x) ->
  (In x l <-> List.length (filter f l) <> 0).
Proof.
  intros Fx U. split.
  - intros H. assert (I : In x (filter f l)) by (apply filter_In; auto).
    destruct (filter f l); [destruct I | discriminate].
  - intros H. destruct (filter f l) as [|n r] eqn:E;
      [exfalso; apply H; reflexivity|].
    assert (I : In n (filter f l)) by (rewrite E; left; reflexivity).
    apply filter_In in I. destruct I as (I & Fn).
    rewrite <- (U n Fn). exact I.
Qed.

(** With the invariant, a card is on the page when and only when the
    processor holds it. *)
Lemma attached_tool_call_card (p : StreamProcessor) :
  cards_attached p ->
  (In ToolCallCardEl (modelMessage p) <-> toolCallCard p <> None) /\
  count_nodes is_tool_call_card p <= 1.
Proof.
  intros (_ & H & _). unfold count_nodes, one_if in H.
  rewrite (in_iff_counted is_tool_call_card ToolCallCardEl)
    by (try reflexivity; intros []; simpl; congruence).
  unfold count_nodes. rewrite H.
  destruct (toolCallCard p); simpl; intuition (try discriminate; try lia).
Qed.

Lemma attached_code_card (p : StreamProcessor) :
  cards_attached p ->
  (In CodeCardEl (modelMessage p) <-> codeCard p <> None).
Proof.
  intros (_ & _ & H & _). unfold count_nodes, one_if in H.
  rewrite (in_iff_counted is_code_card CodeCardEl)
    by (try reflexivity; intros []; simpl; congruence).
  rewrite H. destruct (codeCard p); simpl;
    intuition (try discriminate; try lia).
Qed.

(** C2, as amended.  After any sequence of chunks read with the flag set,
    the tool-call card exists, as the card the processor holds and as a
    child of the turn's document, where it never stands twice, if and only
    if some chunk carried a list of function calls, empty or not, and
    neither that chunk nor any later one carried executable code that is
    not the empty string. *)
Theorem C2_tool_call_card_open :
  forall (marked_parse : string -> string + Error) (cs : list Chunk),
  let p := after_chunks marked_parse cs in
  let opened :=
    exists pre c post,
      cs = (pre ++ c :: post)%list /\ carries_tool_list c = true /\
      forall d, In d (c :: post) -> carries_code d = false in
  (toolCallCard p <> None <-> opened) /\
  (In ToolCallCardEl (modelMessage p) <-> opened) /\
  count_nodes is_tool_call_card p <= 1.
Proof.
  intros mp cs p opened.
  assert (F : toolCallCard p <> None <-> opened).
  { subst p opened. rewrite <- is_some_true, after_chunks_apply.
    rewrite apply_chunks_toolCallCard. simpl. rewrite tool_open_spec.
    split.
    - intros [H | (H & _)]; [exact H | discriminate].
    - intros H. left. exact H. }
  assert (I : cards_attached p).
  { subst p. rewrite after_chunks_apply.
    apply apply_chunks_cards. exact cards_attached_new. }
  destruct (attached_tool_call_card p I) as (D & N).
  split; [exact F|]. split; [|exact N].
  rewrite D. exact F.
Qed.

(** C2, as stated, fails on a chunk whose list of function calls is empty:
    the card is created and put in the document although no chunk carried
    a list that is not empty. *)
Lemma C2_counterexample :
  toolCallCard (after_chunks render_verbatim [tool_chunk []]) <> None /\
  modelMessage (after_chunks render_verbatim [tool_chunk []]) = [ToolCallCardEl] /\
  ~ (exists pre c post call calls,
        [tool_chunk []] = (pre ++ c :: post)%list /\
        functionCalls c = Some (call :: calls)).
Proof.
  split; [vm_compute; discriminate|]. split; [reflexivity|].
  intros (pre & c & post & call & calls & E & H).
  destruct pre as [|x [|y pre]]; simpl in E; inversion E; subst;
    discriminate.
Qed.

(** C3, as amended.  A chunk that carries executable code other than the
    empty string leaves the processor without tool-call card and with a
    code card; after any chunks, such a chunk leaves no tool-call card in
    the document and leaves the code card there; and after a sequence of
    chunks both cards are present, held by the processor and standing in
    the document, exactly when a list of function calls arrives after some
    executable code and no executable code arrives with or after it. *)
Theorem C3_tool_and_code_cards :
  forall (marked_parse : string -> string + Error),
  (forall p t f a s r,
      let p' := fst (process_chunk marked_parse (mkChunk t f (Some (String a s)) r) p) in
      toolCallCard p' = None /\ codeCard p' <> None) /\
  (forall pre t f a s r,
      let p' := after_chunks marked_parse
                  (pre ++ [mkChunk t f (Some (String a s)) r])%list in
      ~ In ToolCallCardEl (modelMessage p') /\ In CodeCardEl (modelMessage p')) /\
  (forall cs,
      let p := after_chunks marked_parse cs in
      let both :=
        exists pre c post,
          cs = (pre ++ c :: post)%list /\ existsb carries_code pre = true /\
          carries_tool_list c = true /\
          forall d, In d (c :: post) -> carries_code d = false in
      (toolCallCard p <> None /\ codeCard p <> None <-> both) /\
      (In ToolCallCardEl (modelMessage p) /\ In CodeCardEl (modelMessage p)
       <-> both)).
Proof.
  intros mp.
  assert (A : forall cs, cards_attached (after_chunks mp cs)).
  { intros cs. rewrite after_chunks_apply.
    apply apply_chunks_cards. exact cards_attached_new. }
  split; [|split].
  - intros p t f a s r p'. subst p'.
    pose proof (process_chunk_toolCallCard mp (mkChunk t f (Some (String a s)) r) p) as T.
    pose proof (process_chunk_codeCard mp (mkChunk t f (Some (String a s)) r) p) as C.
    unfold carries_code in T, C. simpl in T, C. split.
    + destruct (toolCallCard _); [discriminate | reflexivity].
    + apply is_some_true. assumption.
  - intros pre t f a s r p'.
    destruct (attached_tool_call_card p' (A _)) as (DT & _).
    pose proof (attached_code_card p' (A _)) as DC.
    rewrite DT, DC, <- !is_some_true. subst p'.
    rewrite after_chunks_apply. unfold apply_chunks.
    rewrite fold_left_app. simpl.
    rewrite apply_chunk_toolCallCard, apply_chunk_codeCard.
    unfold carries_code. simpl. split; [discriminate | reflexivity].
  - intros cs p both.
    assert (F : toolCallCard p <> None /\ codeCard p <> None <-> both).
    { subst p both.
      rewrite <- !is_some_true, after_chunks_apply.
      rewrite apply_chunks_toolCallCard, apply_chunks_codeCard, tool_open_spec.
      simpl. rewrite orb_false_r. split.
      - intros ([(pre & c & post & -> & T & N) | (H & _)] & X); [|discriminate].
        exists pre, c, post. repeat split; auto.
        rewrite existsb_app in X. rewrite (existsb_none (c :: post) N) in X.
        rewrite orb_false_r in X. assumption.
      - intros (pre & c & post & -> & X & T & N). split.
        + left. exists pre, c, post. auto.
        + rewrite existsb_app, X. reflexivity. }
    split; [exact F|].
    destruct (attached_tool_call_card p (A cs)) as (DT & _).
    pose proof (attached_code_card p (A cs)) as DC.
    rewrite DT, DC. exact F.
Qed.

(** C3, as stated, fails when a list of function calls arrives after the
    executable code: both cards are held and stand in the document at the
    end. *)
Lemma C3_counterexample :
  let p := after_chunks render_verbatim
             [code_chunk "print(1)";
              tool_chunk [mkFunctionCall (Some (mkArgs (Some "print(2)")))]] in
  toolCallCard p <> None /\ codeCard p <> None /\
  modelMessage p = [CodeCardEl; ToolCallCardEl].
Proof. vm_compute. split; [discriminate|]. split; [discriminate | reflexivity]. Qed.

(** ** The placeholder *)


Section Placeholder.

Variable marked_parse : string -> string + Error.

Lemma apply_chunk_resultCard (c : Chunk) (p : StreamProcessor) :
  is_some (resultCard (apply_chunk marked_parse p c)) =
  is_some (codeExecutionResult c) || is_some (resultCard p).
Proof.
  destruct (apply_chunk_result marked_parse c p) as (-> & _).
  destruct (codeExecutionResult c); reflexivity.
Qed.

Lemma apply_chunk_any_card (c : Chunk) (p : StreamProcessor) :
  any_card (apply_chunk marked_parse p c) = negb (carries_nothing c) || any_card p.
Proof.
  unfold any_card, carries_nothing.
  rewrite apply_chunk_textCard, apply_chunk_toolCallCard, apply_chunk_codeCard,
    apply_chunk_resultCard.
  destruct (carries_text c), (carries_tool_list c), (carries_code c),
    (is_some (codeExecutionResult c)), (is_some (textCard p)),
    (is_some (toolCallCard p)), (is_some (codeCard p)), (is_some (resultCard p));
    reflexivity.
Qed.

Lemma apply_chunks_any_card (cs : list Chunk) :
  forall p,
  any_card (apply_chunks marked_parse cs p) =
  negb (forallb carries_nothing cs) || any_card p.
Proof.
  unfold apply_chunks.
  induction cs as [|c cs IH]; intros p; simpl; [reflexivity|].
  rewrite IH, apply_chunk_any_card.
  destruct (carries_nothing c), (forallb carries_nothing cs), (any_card p);
    reflexivity.
Qed.

(** With the invariant, the document is empty exactly when the processor
    holds no card. *)
Lemma cards_attached_empty (p : StreamProcessor) :
  cards_attached p -> (modelMessage p = [] <-> any_card p = false).
Proof.
  unfold cards_attached, count_nodes, one_if, any_card.
  intros (H1 & H2 & H3 & H4 & H5). split.
  - intros E. rewrite E in *. simpl in *.
    destruct (is_some (textCard p)), (is_some (toolCallCard p)),
      (is_some (codeCard p)), (is_some (resultCard p)); try discriminate;
      reflexivity.
  - intros A.
    destruct (is_some (textCard p)), (is_some (toolCallCard p)),
      (is_some (codeCard p)), (is_some (resultCard p)); try discriminate.
    destruct (modelMessage p) as [|n l]; [reflexivity|].
    destruct n; simpl in *; discriminate.
Qed.

Lemma handleFormSubmit_document (cs : list Chunk) :
  modelMessage (sp (handleFormSubmit marked_parse (inr (map Yield cs)))) =
  match modelMessage (after_chunks marked_parse cs) with
  | [] => [NoOutputCard]
  | n :: l => n :: l
  end.
Proof.
  unfold handleFormSubmit, process, after_chunks.
  destruct (process_loop_yields marked_parse cs (start [])) as (K & _);
    try reflexivity.
  destruct (process_loop marked_parse (map Yield cs) (start [])) as [w k].
  simpl in *. subst k. simpl.
  destruct (modelMessage (sp w)) eqn:M; simpl; [reflexivity | exact M].
Qed.

End Placeholder.

(** X2.  When a stream delivers its chunks and ends, the turn shows the "no
    output" placeholder, alone, if and only if no chunk carried anything: no
    text other than the empty string, no list of function calls, no
    executable code other than the empty string and no result. *)
Theorem X2_placeholder_iff_nothing_carried :
  forall (marked_parse : string -> string + Error) (cs : list Chunk),
  modelMessage (sp (handleFormSubmit marked_parse (inr (map Yield cs)))) =
    [NoOutputCard] <->
  forallb carries_nothing cs = true.
Proof.
  intros mp cs. rewrite handleFormSubmit_document.
  pose proof (apply_chunks_cards mp cs _ cards_attached_new) as I.
  pose proof (apply_chunks_any_card mp cs (newStreamProcessor [])) as A.
  rewrite <- after_chunks_apply in I, A.
  change (any_card (newStreamProcessor [])) with false in A.
  rewrite orb_false_r in A.
  destruct (cards_attached_empty _ I) as (E1 & E2).
  destruct (modelMessage (after_chunks mp cs)) as [|n l] eqn:M.
  - split; [|reflexivity]. intros _.
    rewrite (E1 eq_refl) in A. destruct (forallb carries_nothing cs);
      [reflexivity | discriminate].
  - split.
    + intros E. injection E as -> ->.
      destruct I as (_ & _ & _ & _ & F). rewrite M in F. discriminate.
    + intros F. rewrite F in A. simpl in A.
      specialize (E2 A). discriminate.
Qed.

(** ** What the tool-call card and the code card show *)

Section CardContents.

Variable marked_parse : string -> string + Error.

Lemma process_chunk_toolCallCard_value (c : Chunk) (p : StreamProcessor) :
  toolCallCard (fst (process_chunk marked_parse c p)) =
  if carries_code c then None
  else match functionCalls c with
       | Some l => Some (Js.join (map call_code l))
       | None => toolCallCard p
       end.
Proof.
  unfold process_chunk, carries_code.
  destruct (updateText marked_parse (text c) p) as [p1 pr] eqn:E. simpl.
  pose proof (updateText_frame marked_parse (text c) p) as F.
  rewrite E in F. simpl in F. destruct F as (Ft & _).
  match goal with |- context [updateResult ?r ?q] =>
    destruct (updateResult_frame r q) as (_ & _ & _ & -> & _) end.
  rewrite <- Ft. clear Ft E.
  unfold updateExecutableCode, updateToolCall.
  destruct p1 as [mm acc lang els tc [tcc|] [cc|] rc];
    destruct (executableCode c) as [[|a s]|];
    destruct (functionCalls c); reflexivity.
Qed.

Lemma apply_chunk_toolCallCard_value (c : Chunk) (p : StreamProcessor) :
  toolCallCard (apply_chunk marked_parse p c) =
  if carries_code c then None
  else match functionCalls c with
       | Some l => Some (Js.join (map call_code l))
       | None => toolCallCard p
       end.
Proof.
  rewrite <- process_chunk_toolCallCard_value. unfold apply_chunk.
  destruct (process_chunk marked_parse c p) as [q [| |]]; reflexivity.
Qed.

Lemma apply_chunks_toolCallCard_value (cs : list Chunk) :
  forall p,
  toolCallCard (apply_chunks marked_parse cs p) = tool_preview (toolCallCard p) cs.
Proof.
  unfold apply_chunks, tool_preview.
  induction cs as [|c cs IH]; intros p; simpl; [reflexivity|].
  rewrite IH, apply_chunk_toolCallCard_value. reflexivity.
Qed.

(** The code card after one chunk: kept with its label and given the new
    code, or built with the language in force once the text of the same
    chunk has been read. *)
Lemma apply_chunk_codeCard_value (c : Chunk) (p : StreamProcessor) :
  codeCard (apply_chunk marked_parse p c) =
  match executableCode c with
  | Some (String a s) =>
      Some (mkCodeCard
              match codeCard p with
              | Some card => cc_language card
              | None => detectedLanguage (apply_chunk marked_parse p c)
              end
              (String a s))
  | _ => codeCard p
  end.
Proof.
  assert (D : detectedLanguage (apply_chunk marked_parse p c) =
              detectedLanguage (fst (updateText marked_parse (text c) p))).
  { destruct (process_chunk_text_frame marked_parse c p) as (_ & _ & L & _).
    rewrite <- L. unfold apply_chunk.
    destruct (process_chunk marked_parse c p) as [q [| |]]; reflexivity. }
  rewrite D. clear D.
  assert (C : codeCard (apply_chunk marked_parse p c) =
              codeCard (fst (process_chunk marked_parse c p))).
  { unfold apply_chunk.
    destruct (process_chunk marked_parse c p) as [q [| |]]; reflexivity. }
  rewrite C. clear C. unfold process_chunk.
  pose proof (updateText_frame marked_parse (text c) p) as F.
  destruct (updateText marked_parse (text c) p) as [p1 pr]. simpl in *.
  destruct F as (_ & Fc & _). rewrite <- Fc. clear Fc.
  match goal with |- context [updateResult ?r ?q] =>
    destruct (updateResult_frame r q) as (_ & _ & _ & _ & -> & _) end.
  destruct (updateToolCall_frame (functionCalls c) p1) as (_ & L & _ & Fc' & _).
  rewrite <- Fc', <- L.
  generalize (updateToolCall (functionCalls c) p1). intros q.
  unfold updateExecutableCode.
  destruct (executableCode c) as [[|a s]|]; try reflexivity.
  destruct q as [mm acc lang els tc [tcc|] [cc|] rc]; reflexivity.
Qed.

Lemma apply_chunks_codeCard_kept (cs : list Chunk) :
  forall p card, codeCard p = Some card ->
  codeCard (apply_chunks marked_parse cs p) =
  Some (mkCodeCard (cc_language card) (latest_code (cc_textContent card) cs)).
Proof.
  unfold apply_chunks, latest_code.
  induction cs as [|c cs IH]; intros p card H; simpl.
  - rewrite H. destruct card; reflexivity.
  - pose proof (apply_chunk_codeCard_value c p) as V. rewrite H in V.
    destruct (executableCode c) as [[|a s]|].
    + apply IH. exact V.
    + rewrite (IH _ _ V). reflexivity.
    + apply IH. exact V.
Qed.

Lemma apply_chunks_codeCard_none (cs : list Chunk) :
  forall p, codeCard p = None -> existsb carries_code cs = false ->
  codeCard (apply_chunks marked_parse cs p) = None.
Proof.
  intros p H N.
  pose proof (apply_chunks_codeCard marked_parse cs p) as E.
  rewrite N, H in E.
  destruct (codeCard (apply_chunks marked_parse cs p));
    [discriminate | reflexivity].
Qed.

End CardContents.

(** X3.  After any sequence of chunks the tool-call card shows the code of
    the last list of function calls read since the last executable code, and
    of that list only: a chunk that carries a list and no executable code
    replaces whatever preview the chunks before it had built by the
    concatenation of the codes of its own calls. *)
Theorem X3_tool_preview_is_latest_list :
  forall (marked_parse : string -> string + Error)
         (pre : list Chunk) (c : Chunk) (l : list FunctionCall),
  functionCalls c = Some l -> carries_code c = false ->
  toolCallCard (after_chunks marked_parse (pre ++ [c])%list) =
    Some (Js.join (map call_code l)) /\
  (forall cs, toolCallCard (after_chunks marked_parse cs) = tool_preview None cs).
Proof.
  intros mp pre c l F N. split.
  - rewrite after_chunks_apply. unfold apply_chunks. rewrite fold_left_app.
    simpl. rewrite apply_chunk_toolCallCard_value, N, F. reflexivity.
  - intros cs. rewrite after_chunks_apply.
    apply (apply_chunks_toolCallCard_value mp cs (newStreamProcessor [])).
Qed.

Lemma X3_tool_preview_is_latest_list_witness :
  toolCallCard
    (after_chunks render_verbatim
       [tool_chunk [mkFunctionCall (Some (mkArgs (Some "import os")))];
        tool_chunk [mkFunctionCall (Some (mkArgs (Some "print(")));
                    mkFunctionCall None;
                    mkFunctionCall (Some (mkArgs (Some "1)")))]]) =
  Some "print(1)".
Proof.
  apply (X3_tool_preview_is_latest_list render_verbatim
           [tool_chunk [mkFunctionCall (Some (mkArgs (Some "import os")))]]
           (tool_chunk [mkFunctionCall (Some (mkArgs (Some "print(")));
                        mkFunctionCall None;
                        mkFunctionCall (Some (mkArgs (Some "1)")))])
           _ eq_refl eq_refl).
Defined.

(** X4.  The code card is built by the first chunk that carries executable
    code other than the empty string; its label is the language in force
    when that chunk has been read, and no later chunk changes it, markers
    included; its content is the last executable code, other than the empty
    string, read so far. *)
Theorem X4_code_card_label_and_content :
  forall (marked_parse : string -> string + Error)
         (pre : list Chunk) (c : Chunk) (post : list Chunk),
  existsb carries_code pre = false -> carries_code c = true ->
  codeCard (after_chunks marked_parse pre) = None /\
  codeCard (after_chunks marked_parse (pre ++ c :: post)%list) =
    Some (mkCodeCard
            (detectedLanguage (after_chunks marked_parse (pre ++ [c])%list))
            (latest_code "" (c :: post))).
Proof.
  intros mp pre c post N C.
  rewrite !after_chunks_apply.
  assert (P : codeCard (apply_chunks mp pre (newStreamProcessor [])) = None)
    by (apply apply_chunks_codeCard_none; [reflexivity | exact N]).
  split; [exact P|].
  unfold apply_chunks in *. rewrite !fold_left_app. simpl.
  set (q := fold_left (apply_chunk mp) pre (newStreamProcessor [])) in *.
  pose proof (apply_chunk_codeCard_value mp c q) as V. rewrite P in V.
  unfold carries_code in C.
  destruct (executableCode c) as [[|a s]|] eqn:E; try discriminate.
  pose proof (apply_chunks_codeCard_kept mp post _ _ V) as K.
  unfold apply_chunks in K. rewrite K. simpl.
  unfold latest_code. simpl. rewrite ?E. reflexivity.
Qed.

Lemma X4_code_card_label_and_content_witness :
  codeCard
    (after_chunks render_verbatim
       [text_chunk "Language: go "; code_chunk "v1";
        text_chunk "Language: rust "; code_chunk "v2"]) =
  Some (mkCodeCard "go" "v2").
Proof.
  apply (X4_code_card_label_and_content render_verbatim
           [text_chunk "Language: go "] (code_chunk "v1")
           [text_chunk "Language: rust "; code_chunk "v2"] eq_refl eq_refl).
Defined.

(** ** The language is a plain name *)

Lemma lang_char_lower (c : ascii) :
  Js.is_word_char c = true -> lang_char (Js.char_toLowerCase c) = true.
Proof.
  destruct c as [[] [] [] [] [] [] [] []]; vm_compute; intros H;
    first [reflexivity | discriminate H].
Qed.

Lemma word_run_all (g : string) :
  Regex.word_run g = g -> string_forallb Js.is_word_char g = true.
Proof.
  induction g as [|c g IH]; simpl; [reflexivity|].
  destruct (Js.is_word_char c); [|discriminate].
  intros H. injection H as H. simpl. auto.
Qed.

Lemma all_word_run (g : string) :
  string_forallb Js.is_word_char g = true -> Regex.word_run g = g.
Proof.
  induction g as [|c g IH]; simpl; [reflexivity|].
  intros H. apply andb_true_iff in H. destruct H as (-> & H).
  rewrite (IH H). reflexivity.
Qed.

Lemma toLowerCase_lang (s : string) :
  string_forallb Js.is_word_char s = true ->
  string_forallb lang_char (Js.toLowerCase s) = true.
Proof.
  induction s as [|c s IH]; simpl; [reflexivity|].
  intros H. apply andb_true_iff in H. destruct H as (H1 & H2).
  rewrite (lang_char_lower c H1), (IH H2). reflexivity.
Qed.

(** The name a match captures is a run of word characters, not empty. *)
Lemma match_language_group (s : string) :
  forall r, Regex.match_language s = Some r -> is_word (Regex.m_group1 r) = true.
Proof.
  induction s as [|c s IH]; intros r; simpl.
  - discriminate.
  - destruct (Regex.language_here (String c s)) as [[m g]|] eqn:H.
    + intros E. injection E as <-. simpl.
      destruct (language_here_shape _ _ _ H) as (l & t & _ & _ & G & W & _).
      unfold is_word. destruct g; [congruence | apply word_run_all; exact W].
    + destruct (Regex.match_language s) as [r'|]; [|discriminate].
      intros E. injection E as <-. simpl. apply IH. reflexivity.
Qed.

Lemma lang_ok_lower (g : string) :
  is_word g = true -> lang_ok (Js.toLowerCase g) = true.
Proof.
  unfold is_word, lang_ok. destruct g as [|c g]; [discriminate|].
  intros H. apply (toLowerCase_lang (String c g) H).
Qed.

Lemma step_language_ok (acc lang d : string) :
  lang_ok lang = true -> lang_ok (step_language acc lang d) = true.
Proof.
  intros H. unfold step_language. destruct d as [|a d]; [exact H|].
  destruct (Regex.match_language (acc ++ String a d)) as [m|] eqn:M; [|exact H].
  apply lang_ok_lower. apply (match_language_group _ _ M).
Qed.

Section Language.

Variable marked_parse : string -> string + Error.

(** An invariant of the processor holds all along the loop when a chunk
    keeps it. *)
Lemma process_loop_invariant (I : StreamProcessor -> Prop) :
  (forall p c, I p -> I (apply_chunk marked_parse p c)) ->
  forall evs w, microtasks w = [] -> I (sp w) ->
  I (sp (fst (process_loop marked_parse evs w))).
Proof.
  intros K.
  induction evs as [|[| |c|e] evs IH]; intros w M H;
    cbn [process_loop fst].
  - exact H.
  - apply (IH (stop_click w)); assumption.
  - apply (IH (submit_click w)); assumption.
  - destruct (negb (isGenerating (app w))); [exact H|].
    destruct (loop_body_sp marked_parse c w M) as (S & M' & _).
    apply (IH (run_microtasks (loop_body marked_parse c w))); [exact M'|].
    rewrite S. apply K. exact H.
  - exact H.
Qed.

Lemma apply_chunk_language_ok (p : StreamProcessor) (c : Chunk) :
  language_is_name p -> language_is_name (apply_chunk marked_parse p c).
Proof.
  unfold language_is_name. intros (L & C).
  destruct (apply_chunk_text marked_parse c p) as (_ & D & _).
  assert (L' : lang_ok (detectedLanguage (apply_chunk marked_parse p c)) = true)
    by (rewrite D; apply step_language_ok; exact L).
  split; [exact L'|].
  rewrite apply_chunk_codeCard_value.
  destruct (executableCode c) as [[|a s]|]; try exact C.
  simpl. destruct (codeCard p); assumption.
Qed.

End Language.

(** X5.  Whatever the events of the turn and whatever the text of the
    stream, the detected language and the label of the code card are names
    made of lower-case letters, digits and underscores, and are not empty:
    the string written into the header and the class of the code card never
    carries markup. *)
Theorem X5_language_is_a_plain_name :
  forall (marked_parse : string -> string + Error) (evs : list Event),
  let p := sp (fst (process_loop marked_parse evs (start []))) in
  lang_ok (detectedLanguage p) = true /\
  match codeCard p with
  | Some card => lang_ok (cc_language card) = true
  | None => True
  end.
Proof.
  intros mp evs.
  apply (process_loop_invariant mp language_is_name
           (apply_chunk_language_ok mp) evs (start []) eq_refl).
  split; [reflexivity | exact I].
Qed.

(** ** A name cut by the stream *)

Lemma char_eq_ci_colon (c : ascii) :
  Js.char_eq_ci ":" c = true -> Js.is_word_char c = false.
Proof.
  destruct c as [[] [] [] [] [] [] [] []]; vm_compute; intros H;
    first [reflexivity | discriminate H].
Qed.

Lemma literal_ci_not_word (s rest : string) :
  Regex.literal_ci "Language: " s = Some rest ->
  string_forallb Js.is_word_char s = false.
Proof.
  intros H.
  do 8 (destruct s as [|? s]; [discriminate H|];
        cbn [Regex.literal_ci] in H;
        match type of H with
        | (if ?b then _ else _) = _ => destruct b; [|discriminate H]
        end).
  destruct s as [|c s]; [discriminate H|].
  cbn [Regex.literal_ci] in H.
  destruct (Js.char_eq_ci ":" c) eqn:Q; [|discriminate H].
  cbn [string_forallb]. rewrite (char_eq_ci_colon c Q).
  repeat (match goal with
          | |- context [Js.is_word_char ?x && _] =>
              destruct (Js.is_word_char x); cbn [andb]
          end); reflexivity.
Qed.

Lemma string_forallb_tail (f : ascii -> bool) (c : ascii) (s : string) :
  string_forallb f (String c s) = true -> string_forallb f s = true.
Proof. simpl. intros H. apply andb_true_iff in H. tauto. Qed.

(** A run of word characters holds no marker. *)
Lemma match_language_word (w : string) :
  string_forallb Js.is_word_char w = true -> Regex.match_language w = None.
Proof.
  induction w as [|c w IH]; intros H; [reflexivity|].
  cbn [Regex.match_language].
  assert (N : Regex.language_here (String c w) = None).
  { unfold Regex.language_here.
    destruct (Regex.literal_ci "Language: " (String c w)) as [rest|] eqn:L;
      [|reflexivity].
    rewrite (literal_ci_not_word _ _ L) in H. discriminate. }
  rewrite N, (IH (string_forallb_tail _ _ _ H)). reflexivity.
Qed.

Lemma take_all (s : string) : Js.take (String.length s) s = s.
Proof. induction s as [|c s IH]; simpl; [|rewrite IH]; reflexivity. Qed.

Lemma drop_all (s : string) : Js.drop (String.length s) s = "".
Proof. induction s as [|c s IH]; simpl; [reflexivity | exact IH]. Qed.

(** A text that is the marker and nothing else. *)
Lemma match_language_marker_only (w : string) :
  is_word w = true ->
  Regex.match_language ("Language: " ++ w) =
  Some (Regex.mkMatch 0 ("Language: " ++ w) w).
Proof.
  unfold is_word. destruct w as [|c w]; [discriminate|]. intros H.
  pose proof (all_word_run _ H) as W.
  change ("Language: " ++ String c w)
    with (String "L" ("anguage: " ++ String c w)).
  cbn [Regex.match_language]. unfold Regex.language_here.
  change (Regex.literal_ci "Language: " (String "L" ("anguage: " ++ String c w)))
    with (Some (String c w)).
  cbv beta iota. rewrite W.
  change (Js.take (10 + String.length (String c w))
            (String "L" ("anguage: " ++ String c w)))
    with ("Language: " ++ Js.take (String.length (String c w)) (String c w)).
  rewrite take_all. reflexivity.
Qed.

Lemma strip_marker_only (w : string) :
  is_word w = true -> strip_marker ("Language: " ++ w) = "".
Proof.
  intros H. unfold strip_marker. rewrite (match_language_marker_only w H).
  cbn [Regex.m_index Regex.m_all Js.take Nat.add].
  rewrite drop_all. reflexivity.
Qed.

Lemma string_forallb_app (f : ascii -> bool) (a b : string) :
  string_forallb f (a ++ b) = string_forallb f a && string_forallb f b.
Proof.
  induction a as [|c a IH]; simpl; [reflexivity|].
  rewrite IH. apply andb_assoc.
Qed.

Lemma is_word_app (a b : string) :
  is_word a = true -> is_word b = true -> is_word (a ++ b) = true.
Proof.
  unfold is_word. destruct a as [|c a]; [discriminate|].
  destruct b as [|d b]; [discriminate|]. intros Ha Hb.
  change (String c a ++ String d b) with (String c (a ++ String d b)).
  cbn [string_forallb] in *. apply andb_true_iff in Ha. destruct Ha as (-> & Ha).
  rewrite string_forallb_app, Ha. exact Hb.
Qed.

(** X6.  The language a marker names depends on where the stream cuts the
    text.  When the name arrives whole in one delta, it is detected whole
    and nothing of the marker is shown; when the stream cuts it, the part
    in the first delta is taken for the name and the rest is shown as
    text. *)
Theorem X6_name_cut_by_the_stream :
  forall (marked_parse : string -> string + Error) (w1 w2 : string),
  is_word w1 = true -> is_word w2 = true ->
  let cut := after_chunks marked_parse
               [text_chunk ("Language: " ++ w1); text_chunk w2] in
  let whole := after_chunks marked_parse [text_chunk ("Language: " ++ w1 ++ w2)] in
  detectedLanguage cut = Js.toLowerCase w1 /\ accumulatedText cut = w2 /\
  detectedLanguage whole = Js.toLowerCase (w1 ++ w2) /\ accumulatedText whole = "".
Proof.
  intros mp w1 w2 H1 H2 cut whole. subst cut whole.
  rewrite !after_chunks_apply. unfold apply_chunks. cbn [fold_left].
  set (p0 := newStreamProcessor []).
  destruct (apply_chunk_text mp (text_chunk ("Language: " ++ w1)) p0)
    as (A1 & L1 & _).
  set (p1 := apply_chunk mp p0 (text_chunk ("Language: " ++ w1))) in *.
  destruct (apply_chunk_text mp (text_chunk w2) p1) as (A2 & L2 & _).
  destruct (apply_chunk_text mp (text_chunk ("Language: " ++ w1 ++ w2)) p0)
    as (A3 & L3 & _).
  cbn [text_chunk text Js.or_else accumulatedText detectedLanguage p0
       newStreamProcessor] in A1, L1, A3, L3.
  change (Js.or_else (Some ("Language: " ++ w1)) "") with ("Language: " ++ w1)
    in A1, L1.
  change (Js.or_else (Some ("Language: " ++ w1 ++ w2)) "")
    with ("Language: " ++ w1 ++ w2) in A3, L3.
  unfold step_text, step_language in A1, L1, A3, L3.
  change ("Language: " ++ w1) with (String "L" ("anguage: " ++ w1)) in A1, L1.
  change ("Language: " ++ w1 ++ w2)
    with (String "L" ("anguage: " ++ w1 ++ w2)) in A3, L3.
  cbn iota in A1, L1, A3, L3.
  change ("" ++ String "L" ("anguage: " ++ w1)) with ("Language: " ++ w1)
    in A1, L1.
  change ("" ++ String "L" ("anguage: " ++ w1 ++ w2))
    with ("Language: " ++ (w1 ++ w2)) in A3, L3.
  pose proof (is_word_app _ _ H1 H2) as H12.
  rewrite (strip_marker_only w1 H1) in A1.
  rewrite (match_language_marker_only w1 H1) in L1.
  rewrite (strip_marker_only _ H12) in A3.
  rewrite (match_language_marker_only _ H12) in L3.
  cbn [Regex.m_group1] in L1, L3.
  assert (N : Regex.match_language w2 = None).
  { apply match_language_word. unfold is_word in H2.
    destruct w2; [discriminate | exact H2]. }
  rewrite A1, L1 in *. cbn [text_chunk text] in A2, L2.
  unfold step_text, step_language, strip_marker in A2, L2.
  destruct w2 as [|c w2]; [discriminate H2|].
  cbn [Js.or_else] in A2, L2.
  change ("" ++ String c w2) with (String c w2) in A2, L2.
  rewrite N in A2, L2.
  repeat split; assumption.
Qed.

Lemma X6_name_cut_by_the_stream_witness :
  detectedLanguage
    (after_chunks render_verbatim [text_chunk "Language: java"; text_chunk "script"])
  = "java".
Proof.
  apply (X6_name_cut_by_the_stream render_verbatim "java" "script" eq_refl eq_refl).
Defined.

(** * Properties of the rest of the page *)

(** ** The image sent *)

Lemma after_scheme_unfold (s : string) :
  DataUri.after_scheme s =
  match Js.strip_prefix ";base64," s with
  | Some rest => Some (EmptyString, DataUri.line_prefix rest)
  | None =>
      match s with
      | EmptyString => None
      | String c s' =>
          if Js.is_line_terminator c then None
          else
            match DataUri.after_scheme s' with
            | Some (mime, data) => Some (String c mime, data)
            | None => None
            end
      end
  end.
Proof. destruct s; reflexivity. Qed.

Lemma line_prefix_all (s : string) :
  no_line_break s = true -> DataUri.line_prefix s = s.
Proof.
  unfold no_line_break. induction s as [|c s IH]; simpl; [reflexivity|].
  intros H. apply andb_true_iff in H. destruct H as (H1 & H2).
  apply negb_true_iff in H1. rewrite H1, (IH H2). reflexivity.
Qed.

Lemma strip_prefix_base64_none (c : ascii) (s : string) :
  Ascii.eqb c ";" = false -> Js.strip_prefix ";base64," (String c s) = None.
Proof.
  intros H. cbn [Js.strip_prefix]. rewrite Ascii.eqb_sym, H. reflexivity.
Qed.

Lemma after_scheme_round_trip (mime data : string) :
  no_semicolon mime = true -> no_line_break mime = true ->
  DataUri.after_scheme (mime ++ ";base64," ++ data) =
  Some (mime, DataUri.line_prefix data).
Proof.
  unfold no_semicolon, no_line_break.
  induction mime as [|c mime IH]; intros S L.
  - rewrite after_scheme_unfold.
    change (Js.strip_prefix ";base64," ("" ++ ";base64," ++ data))
      with (Some data).
    reflexivity.
  - cbn [string_forallb] in S, L.
    apply andb_true_iff in S. destruct S as (S1 & S2).
    apply andb_true_iff in L. destruct L as (L1 & L2).
    apply negb_true_iff in S1, L1.
    change (String c mime ++ ";base64," ++ data)
      with (String c (mime ++ ";base64," ++ data)).
    rewrite after_scheme_unfold, (strip_prefix_base64_none c _ S1), L1.
    rewrite (IH S2 L2). reflexivity.
Qed.

Lemma after_scheme_needs_semicolon (s : string) :
  no_semicolon s = true -> DataUri.after_scheme s = None.
Proof.
  unfold no_semicolon. induction s as [|c s IH]; intros S; [reflexivity|].
  cbn [string_forallb] in S.
  apply andb_true_iff in S. destruct S as (S1 & S2).
  apply negb_true_iff in S1.
  rewrite after_scheme_unfold, (strip_prefix_base64_none c _ S1), (IH S2).
  destruct (Js.is_line_terminator c); reflexivity.
Qed.

Lemma match_data_uri_needs_semicolon (s : string) :
  no_semicolon s = true -> DataUri.match_data_uri s = None.
Proof.
  induction s as [|c s IH]; intros S; [reflexivity|].
  cbn [DataUri.match_data_uri].
  assert (H : DataUri.here (String c s) = None).
  { unfold DataUri.here.
    destruct (Js.strip_prefix "data:" (String c s)) as [rest|] eqn:P;
      [|reflexivity].
    apply strip_prefix_split in P. rewrite P in S.
    unfold no_semicolon in S. rewrite string_forallb_app in S.
    apply andb_true_iff in S. destruct S as (_ & S).
    apply after_scheme_needs_semicolon. exact S. }
  rewrite H. apply IH. exact (string_forallb_tail _ _ _ S).
Qed.

(** X7.  An image given as [data:<mime>;base64,<payload>], where the MIME
    type holds no semicolon and neither part holds a line break, is sent as
    one inline part with exactly that MIME type and that payload, before
    the text part if the prompt is not empty. *)
Theorem X7_image_part_round_trip :
  forall (type_error : Error) (prompt mime data : string),
  no_semicolon mime = true -> no_line_break mime = true ->
  no_line_break data = true ->
  DataUri.match_data_uri ("data:" ++ mime ++ ";base64," ++ data) =
    Some (mime, data) /\
  message_parts type_error prompt (Some ("data:" ++ mime ++ ";base64," ++ data)) =
    inr (InlineData data mime ::
         match prompt with
         | EmptyString => []
         | _ => [TextPart prompt]
         end).
Proof.
  intros te prompt mime data S L D.
  assert (M : DataUri.match_data_uri ("data:" ++ mime ++ ";base64," ++ data) =
              Some (mime, data)).
  { change ("data:" ++ mime ++ ";base64," ++ data)
      with (String "d" ("ata:" ++ mime ++ ";base64," ++ data)).
    cbn [DataUri.match_data_uri]. unfold DataUri.here.
    change (Js.strip_prefix "data:"
              (String "d" ("ata:" ++ mime ++ ";base64," ++ data)))
      with (Some (mime ++ ";base64," ++ data)).
    cbv beta iota.
    rewrite (after_scheme_round_trip mime data S L), (line_prefix_all data D).
    reflexivity. }
  split; [exact M|].
  unfold message_parts.
  change ("data:" ++ mime ++ ";base64," ++ data)
    with (String "d" ("ata:" ++ mime ++ ";base64," ++ data)) in *.
  cbv beta iota zeta. rewrite M. reflexivity.
Qed.

Lemma X7_image_part_round_trip_witness :
  message_parts render_error "What is this?"
    (Some "data:image/png;base64,iVBORw0KGgo=") =
  inr [InlineData "iVBORw0KGgo=" "image/png"; TextPart "What is this?"].
Proof.
  apply (X7_image_part_round_trip render_error "What is this?"
           "image/png" "iVBORw0KGgo=" eq_refl eq_refl eq_refl).
Defined.

(** X8.  An image string that is not empty and holds no semicolon does not
    match the pattern: the turn fails before anything is sent, whatever the
    prompt and the backend; its document is the error card alone, made from
    the error of the failed destructuring, and the flag is cleared and the
    stop button hidden. *)
Theorem X8_malformed_image_fails_the_turn :
  forall (marked_parse : string -> string + Error) (type_error : Error)
         (sendMessageStream : list Part -> Error + list Event)
         (prompt : string) (a : ascii) (s : string),
  no_semicolon (String a s) = true ->
  let w := submit_turn marked_parse type_error sendMessageStream prompt
             (Some (String a s)) in
  message_parts type_error prompt (Some (String a s)) = inl type_error /\
  modelMessage (sp w) = [ErrorCard (errorBody_of type_error)] /\
  app w = {| isGenerating := false; stopButtonHidden := true |}.
Proof.
  intros mp te send prompt a s S w. subst w.
  assert (P : message_parts te prompt (Some (String a s)) = inl te).
  { unfold message_parts. rewrite (match_data_uri_needs_semicolon _ S).
    reflexivity. }
  unfold submit_turn. rewrite P. repeat split.
Qed.

Lemma X8_malformed_image_fails_the_turn_witness :
  modelMessage
    (sp (submit_turn render_verbatim (mkError (Some "null is not iterable"))
           (fun _ => inr [Yield (text_chunk "never read")])
           "Describe it" (Some "data:,"))) =
  [ErrorCard "null is not iterable"].
Proof.
  apply (X8_malformed_image_fails_the_turn render_verbatim
           (mkError (Some "null is not iterable"))
           (fun _ => inr [Yield (text_chunk "never read")])
           "Describe it" "d" "ata:," eq_refl).
Defined.

(** ** The form *)

Lemma truthy_length (s : string) :
  Js.truthy (Some s) = (0 <? String.length s)%nat.
Proof. destruct s; reflexivity. Qed.

(** X9.  Set without force, the submit button is enabled exactly when no
    turn is generating and the [submit] listener would accept the form as
    it is, that is when the trimmed prompt is not empty or an image is
    pending. *)
Theorem X9_button_enabled_iff_submission_accepted :
  forall (a : AppState) (c : Composer),
  submitDisabled (toggleSubmitButton None a c) = false <->
  isGenerating a = false /\ snd (submit_listener c) <> None.
Proof.
  intros a c. unfold toggleSubmitButton, submit_listener.
  cbn [submitDisabled]. rewrite <- truthy_length.
  destruct (Js.truthy (Some (Js.trim (promptValue c)))),
    (Js.truthy (capturedImageBase64 c)), (isGenerating a); simpl;
    (split;
     [ intros H; first [discriminate H | (split; [reflexivity | discriminate])]
     | intros (H1 & H2);
       first [discriminate H1 | (exfalso; apply H2; reflexivity) | reflexivity] ]).
Qed.

(** X10.  A submission the listener accepts carries the trimmed prompt and
    the pending image, empties the textarea, the pending image and the
    preview, shows a user message that is not empty and, unless the image
    fails to parse, sends at least one part. *)
Theorem X10_accepted_submission :
  forall (type_error : Error) (c : Composer)
         (prompt : string) (image : option string),
  snd (submit_listener c) = Some (prompt, image) ->
  prompt = Js.trim (promptValue c) /\ image = capturedImageBase64 c /\
  fst (submit_listener c) = mkComposer "" None None (submitDisabled c) /\
  user_message prompt image <> [] /\
  match message_parts type_error prompt image with
  | inr parts => parts <> []
  | inl e => e = type_error
  end.
Proof.
  intros te c prompt image. unfold submit_listener.
  destruct (negb (Js.truthy (Some (Js.trim (promptValue c)))) &&
            negb (Js.truthy (capturedImageBase64 c))) eqn:G; simpl;
    [discriminate|].
  intros H. injection H as <- <-.
  split; [reflexivity|]. split; [reflexivity|]. split; [reflexivity|].
  unfold user_message, message_parts.
  destruct (Js.trim (promptValue c)) as [|x p];
    destruct (capturedImageBase64 c) as [[|y i]|]; simpl in G;
    try discriminate; cbv beta iota zeta.
  - split; [discriminate|].
    destruct (DataUri.match_data_uri (String y i)) as [[m d]|]; simpl;
      [discriminate | reflexivity].
  - split; discriminate.
  - split; [discriminate|].
    destruct (DataUri.match_data_uri (String y i)) as [[m d]|]; simpl;
      [discriminate | reflexivity].
  - split; discriminate.
Qed.

Lemma X10_accepted_submission_witness :
  user_message "hello" (Some "data:image/png;base64,AAAA") <> [].
Proof.
  apply (X10_accepted_submission render_error
           (mkComposer "  hello  " (Some "data:image/png;base64,AAAA")
              (Some "data:image/png;base64,AAAA") false)
           "hello" (Some "data:image/png;base64,AAAA") eq_refl).
Defined.

(** ** The body of the error card *)

Lemma bracket_tail_none (s : string) :
  has_closed_token s = false -> Regex.bracket_tail s = None.
Proof.
  induction s as [|c s IH]; simpl; [reflexivity|].
  intros H. apply orb_false_iff in H. destruct H as (H1 & H2).
  rewrite (IH H2).
  destruct (Ascii.eqb c "]"); simpl in *.
  - rewrite H1. destruct (Js.is_line_terminator c); reflexivity.
  - destruct (Js.is_line_terminator c); reflexivity.
Qed.

Lemma remove_brackets_unchanged (s : string) :
  has_closed_token s = false -> Regex.remove_brackets_from 0 s = s.
Proof.
  induction s as [|c s IH]; [reflexivity|].
  intros H. cbn [Regex.remove_brackets_from Regex.bracket_here].
  pose proof H as H'. simpl in H'. apply orb_false_iff in H'.
  destruct H' as (_ & H2).
  rewrite (bracket_tail_none s H2), (IH H2).
  destruct (Ascii.eqb c "["); reflexivity.
Qed.

(** X11.  An error message that is not empty and in which no closing
    bracket is followed by white space is shown as it is: a bracketed code
    at the very end of the message, or glued to the word that follows it,
    stays in the card. *)
Theorem X11_error_message_kept :
  forall (a : ascii) (s : string),
  has_closed_token (String a s) = false ->
  errorBody_of (mkError (Some (String a s))) = String a s.
Proof.
  intros a s H. unfold errorBody_of, Regex.remove_brackets. simpl Js.or_else.
  apply remove_brackets_unchanged. exact H.
Qed.

Lemma X11_error_message_kept_witness :
  errorBody_of (mkError (Some "Quota exceeded [429]")) = "Quota exceeded [429]".
Proof.
  apply (X11_error_message_kept "Q" "uota exceeded [429]" eq_refl).
Defined.

(** ** The camera *)

(** X12.  When [getUserMedia] settles before the modal is closed, every
    way out of the camera releases it: after the stream is granted, a click
    on cancel or on capture stops that stream, clears [state.mediaStream]
    and removes the modal, the capture also making its image the pending
    one; and a refusal shows one alert, leaves no stream held and removes
    the modal. *)
Theorem X12_camera_released :
  forall (a : AppState) (k : Camera) (s : nat) (d : string),
  let cancelled := camera_session a k [Granted s; CancelClick] in
  let captured := camera_session a k [Granted s; CaptureClick d] in
  let denied := camera_session a k [Denied] in
  (mediaStream cancelled = None /\ ~ In s (running cancelled) /\
   modalAttached cancelled = false) /\
  (mediaStream captured = None /\ ~ In s (running captured) /\
   modalAttached captured = false /\
   capturedImageBase64 (composer captured) = Some d) /\
  (mediaStream denied = None /\ modalAttached denied = false /\
   alerts denied = S (alerts k)).
Proof.
  intros a k s d. unfold camera_session. simpl.
  repeat split;
    first [ reflexivity
          | destruct (Nat.eq_dec s s) as [_|N]; [apply remove_In | congruence]
          | unfold stopCamera; simpl; destruct (mediaStream k); reflexivity ].
Qed.

(** X13.  When the modal is cancelled before [getUserMedia] settles, the
    stream granted afterwards is kept: it runs and is held in
    [state.mediaStream] with no modal in the document; and a later session
    that is granted another stream and cancelled stops that other stream
    only, the first one running on. *)
Theorem X13_stream_granted_after_cancel_is_kept :
  forall (a : AppState) (k : Camera) (s s' : nat),
  s <> s' ->
  let late := camera_session a k [CancelClick; Granted s] in
  mediaStream late = Some s /\ In s (running late) /\
  modalAttached late = false /\
  In s (running (camera_session a late [Granted s'; CancelClick])).
Proof.
  intros a k s s' N. unfold camera_session. simpl.
  split; [reflexivity|]. split; [left; reflexivity|]. split; [reflexivity|].
  destruct (Nat.eq_dec s' s') as [_|C]; [|congruence].
  destruct (Nat.eq_dec s' s) as [E|_]; [congruence|].
  left. reflexivity.
Qed.

Lemma X13_stream_granted_after_cancel_is_kept_witness :
  In 1 (running
          (camera_session (mkAppState false true)
             (camera_session (mkAppState false true)
                (mkCamera None [] false 0 (mkComposer "" None None true))
                [CancelClick; Granted 1])
             [Granted 2; CancelClick])).
Proof.
  apply (X13_stream_granted_after_cancel_is_kept (mkAppState false true)
           (mkCamera None [] false 0 (mkComposer "" None None true)) 1 2).
  discriminate.
Defined.

(** ** A rendering that fails *)

Section RenderFailure.

Variable marked_parse : string -> string + Error.

Lemma updateText_rejected (t : option string) (p : StreamProcessor) (e : Error) :
  Js.truthy t = true ->
  marked_parse (step_text (accumulatedText p) (Js.or_else t "")) = inr e ->
  let u := updateText marked_parse t p in
  snd u = Rejected e /\
  textCard (fst u) =
    Some match textCard p with Some b => b | None => "" end.
Proof.
  unfold updateText, step_text, strip_marker.
  destruct t as [[|a s]|]; simpl; try discriminate. intros _.
  destruct p as [mm acc lang els tc tcc cc rc]. simpl.
  destruct (Regex.match_language (acc ++ String a s)) as [m|] eqn:M; simpl.
  - rewrite (replace_match _ _ M). intros R.
    destruct tc; simpl; rewrite R; split; reflexivity.
  - intros R. destruct tc; simpl; rewrite R; split; reflexivity.
Qed.

End RenderFailure.

Lemma attached_text_card (p : StreamProcessor) :
  cards_attached p ->
  (In TextCardEl (modelMessage p) <-> textCard p <> None) /\
  count_nodes is_text_card p <= 1.
Proof.
  intros (H & _). unfold count_nodes, one_if in H.
  rewrite (in_iff_counted is_text_card TextCardEl)
    by (try reflexivity; intros []; simpl; congruence).
  unfold count_nodes. rewrite H.
  destruct (textCard p); simpl; intuition (try discriminate; try lia).
Qed.

(** X14.  When the rendering of a delta fails, the loop goes on: the delta
    has joined the accumulated text, the text card is in the document, once,
    with the body it had before (empty if the card has just been created),
    and the error is added to the rejections nobody handles.  The processor
    is one whose cards are attached, as every processor the loop reaches
    is. *)
Theorem X14_failed_rendering_keeps_the_body :
  forall (marked_parse : string -> string + Error)
         (w : World) (c : Chunk) (e : Error),
  microtasks w = [] -> cards_attached (sp w) -> carries_text c = true ->
  marked_parse
    (step_text (accumulatedText (sp w)) (Js.or_else (text c) "")) = inr e ->
  let w' := run_microtasks (loop_body marked_parse c w) in
  textCard (sp w') =
    Some match textCard (sp w) with Some b => b | None => "" end /\
  In TextCardEl (modelMessage (sp w')) /\
  count_nodes is_text_card (sp w') = 1 /\
  accumulatedText (sp w') =
    step_text (accumulatedText (sp w)) (Js.or_else (text c) "") /\
  unhandledRejections w' = (unhandledRejections w ++ [e])%list /\
  microtasks w' = [].
Proof.
  intros mp w c e M I T R w'.
  assert (B : textCard (sp w') =
              Some match textCard (sp w) with Some b => b | None => "" end /\
              accumulatedText (sp w') =
                step_text (accumulatedText (sp w)) (Js.or_else (text c) "") /\
              unhandledRejections w' = (unhandledRejections w ++ [e])%list /\
              microtasks w' = []).
  { subst w'.
    destruct (updateText_rejected mp (text c) (sp w) e T R) as (P & B).
    destruct (updateText_text mp (text c) (sp w)) as (A & _).
    destruct (process_chunk_text_frame mp c (sp w)) as (F1 & F2 & _ & F4).
    unfold loop_body.
    destruct (process_chunk mp c (sp w)) as [q pr]. simpl in *.
    rewrite P in F4. subst pr. simpl. rewrite M. simpl.
    rewrite F1, F2, B, A. repeat split. }
  destruct B as (B1 & B2 & B3 & B4).
  assert (I' : cards_attached (sp w')).
  { subst w'. destruct (loop_body_sp mp c w M) as (S & _).
    rewrite S. apply apply_chunk_cards. exact I. }
  destruct (attached_text_card (sp w') I') as (D & _).
  destruct I' as (C1 & _). unfold one_if in C1.
  rewrite B1 in C1, D. simpl in C1.
  repeat split; try assumption.
  apply D. discriminate.
Qed.

Lemma X14_failed_rendering_keeps_the_body_witness :
  textCard (sp (run_microtasks
                  (loop_body render_throws (text_chunk "Hello") (start [])))) =
  Some "" /\
  In TextCardEl
    (modelMessage
       (sp (run_microtasks
              (loop_body render_throws (text_chunk "Hello") (start []))))).
Proof.
  destruct (X14_failed_rendering_keeps_the_body render_throws (start [])
              (text_chunk "Hello") render_error eq_refl
              ltac:(repeat split) eq_refl eq_refl) as (H1 & H2 & _).
  split; [exact H1 | exact H2].
Defined.

(** ** Stopping before anything is shown *)

Lemma nothing_carried_empty_document
  (marked_parse : string -> string + Error) (cs : list Chunk) :
  forallb carries_nothing cs = true ->
  modelMessage (after_chunks marked_parse cs) = [].
Proof.
  intros F.
  pose proof (apply_chunks_cards marked_parse cs _ cards_attached_new) as I.
  pose proof (apply_chunks_any_card marked_parse cs (newStreamProcessor [])) as A.
  rewrite <- after_chunks_apply in I, A. rewrite F in A.
  apply (cards_attached_empty _ I). exact A.
Qed.

(** X15.  A turn stopped while no chunk has carried anything yet shows the
    "no output" placeholder as soon as the stream delivers its next chunk,
    whatever that chunk and the chunks after it carry. *)
Theorem X15_stopped_before_any_output :
  forall (marked_parse : string -> string + Error)
         (cs : list Chunk) (n : nat) (c : Chunk) (post : list Event),
  forallb carries_nothing cs = true ->
  modelMessage
    (sp (handleFormSubmit marked_parse
           (inr (map Yield cs ++ StopClick :: repeat StopClick n
                   ++ Yield c :: post)%list))) =
  [NoOutputCard].
Proof.
  intros mp cs n c post F.
  rewrite (handleFormSubmit_same_page mp _ (map Yield cs)
             (process_loop_stop_then_chunk mp (map Yield cs) post n c (start []))).
  rewrite handleFormSubmit_document, (nothing_carried_empty_document mp cs F).
  reflexivity.
Qed.

Lemma X15_stopped_before_any_output_witness :
  modelMessage
    (sp (handleFormSubmit render_verbatim
           (inr [Yield (mkChunk (Some "") None None None); StopClick;
                 Yield (text_chunk "Here is the answer")]))) =
  [NoOutputCard].
Proof.
  apply (X15_stopped_before_any_output render_verbatim
           [mkChunk (Some "") None None None] 0
           (text_chunk "Here is the answer") [] eq_refl).
Defined.
